(** * Tournaments cog helpers ([tournaments/utils.py])

    A shallow embedding of the command hooks, the permission predicate, the
    HTTP retry wrapper and the yes/no confirmation prompt, followed by the
    properties established for them.

    Python exceptions are values of [exn]; a computation that may raise
    returns a [Result].  Code that talks to the chat service threads an
    explicit world through a state-and-exception monad and records every call
    it makes, so that "how often" and "in which order" become statements
    about a log. *)

From Stdlib Require Import Ascii.
From stdpp Require Import gmap strings list fin_maps pretty.

Open Scope string_scope.
Open Scope list_scope.
Open Scope Z_scope.

(** ** Exceptions and results *)

(** The exception classes the module raises, catches or lets through.
    [TimeoutError] is [asyncio.TimeoutError]; its argument is the [__cause__]
    installed by [raise ... from ...]. *)
#[warnings="-register-all"]
Inductive exn : Type :=
| UserFeedbackCheckFailure (message : string)
| ChallongeException (message : string)
| TimeoutError (cause : option exn)
| KeyError (key : Z)
| AttributeError (attr : string)
| RuntimeError (message : string)
| HTTPException (status : Z).

Inductive Result (A : Type) : Type :=
| Ok (value : A)
| Raise (e : exn).
Arguments Ok {A} value.
Arguments Raise {A} e.

Definition is_KeyError (e : exn) : bool :=
  match e with KeyError _ => true | _ => false end.

Definition is_TimeoutError (e : exn) : bool :=
  match e with TimeoutError _ => true | _ => false end.

(** [d[k]] on a dict keyed by integers. *)
Definition getitem {V : Type} (d : gmap Z V) (k : Z) : Result V :=
  match d !! k with
  | Some v => Ok v
  | None => Raise (KeyError k)
  end.

(** ** Effectful code: state and exceptions

    [M S A] is a computation over a world of type [S] that returns an [A] or
    raises.  The world after a raise is kept: what was done before the
    exception stays done. *)
Definition M (S A : Type) : Type := S → Result A * S.

Definition ret {S A} (a : A) : M S A := λ s, (Ok a, s).

Definition raise {S A} (e : exn) : M S A := λ s, (Raise e, s).

Definition bind {S A B} (m : M S A) (k : A → M S B) : M S B :=
  λ s, match m s with
       | (Ok a, s') => k a s'
       | (Raise e, s') => (Raise e, s')
       end.

Definition lift {S A} (r : Result A) : M S A := λ s, (r, s).

Notation "x <- m ;; k" := (bind m (λ x, k))
  (at level 100, m at next level, right associativity,
   format "'[v' x  <-  m  ;;  '/' k ']'").
Notation "m ;;; k" := (bind m (λ _, k))
  (at level 100, right associativity).

(** Runs [m] and hands its outcome, raised or returned, to the caller. *)
Definition catch {S A} (m : M S A) : M S (Result A) :=
  λ s, match m s with (r, s') => (Ok r, s') end.

(** [try: body / except <handles>: handler / else: orelse].  Only exceptions
    of [body] reach the handler. *)
Definition try_except_else {S A B} (body : M S A) (handles : exn → bool)
    (handler : exn → M S B) (orelse : A → M S B) : M S B :=
  λ s, match body s with
       | (Ok a, s') => orelse a s'
       | (Raise e, s') => if handles e then handler e s' else (Raise e, s')
       end.

(** [try: body / finally: cleanup].  The cleanup runs whatever [body] did;
    an exception of the cleanup replaces the outcome of [body]. *)
Definition try_finally {S A} (body : M S A) (cleanup : M S unit) : M S A :=
  λ s, match body s with
       | (r, s') =>
           match cleanup s' with
           | (Ok _, s'') => (r, s'')
           | (Raise e, s'') => (Raise e, s'')
           end
       end.

(** ** Strings *)

(** Python's [needle in haystack] on [str]. *)
Fixpoint str_contains (needle haystack : string) : bool :=
  String.prefix needle haystack ||
  match haystack with
  | EmptyString => false
  | String _ rest => str_contains needle rest
  end.

(** [template.format(prefix=value)] for a template without brace escapes:
    every occurrence of the field [{prefix}] is replaced by [value]. *)
Fixpoint format_prefix (template value : string) : string :=
  match template with
  | EmptyString => EmptyString
  | String "{"%char (String "p"%char (String "r"%char (String "e"%char
      (String "f"%char (String "i"%char (String "x"%char
        (String "}"%char rest))))))) =>
      value +:+ format_prefix rest value
  | String c rest => String c (format_prefix rest value)
  end.

(** The translator [_]: with the default locale a message is returned as
    written in the source. *)
Definition tr (s : string) : string := s.

(** ** The invocation context *)

Definition Role := Z.

Record Guild := {
  guild_id : Z;
  owner_id : Z
}.

Record Member := {
  member_id : Z;
  administrator : bool;          (* [guild_permissions.administrator] *)
  roles : list Role
}.

(** The tournament object lives in [objects.py]; this file reads its phase
    and its organizer role only.  The phase type is left open. *)
Record Tournament (Phase : Type) := {
  phase : Phase;
  to_role : option Role
}.
Arguments phase {Phase} t.
Arguments to_role {Phase} t.

Record Context := {
  ctx_guild : option Guild;
  ctx_author : Member;
  ctx_message_id : Z;
  ctx_clean_prefix : string
}.

(** [ctx.guild.id]; on a context without guild the attribute access fails. *)
Definition ctx_guild_id (ctx : Context) : Result Z :=
  match ctx_guild ctx with
  | Some g => Ok (guild_id g)
  | None => Raise (AttributeError "id")
  end.

(** ** [credentials_check] *)

Module credentials_check.

(** The per-guild configuration store: [cog.data.guild(g).credentials()]. *)
Definition Store := Guild → gmap string (option string).

Definition message (prefix : string) : string :=
  format_prefix
    (tr ("You need to set your Challonge credentials before using this " +:+
         "command! Use `{prefix}help challongeset` for more info."))
    prefix.

(** [any([x is None for x in credentials.values()])] *)
Definition any_unset (credentials : gmap string (option string)) : bool :=
  existsb (λ x, bool_decide (x = None)) (map_to_list credentials).*2.

Definition hook (data : Store) (ctx : Context) : Result unit :=
  match ctx_guild ctx with
  | None => Raise (AttributeError "id")
  | Some g =>
      let credentials := data g in
      if any_unset credentials
      then Raise (UserFeedbackCheckFailure (message (ctx_clean_prefix ctx)))
      else Ok tt
  end.

End credentials_check.

(** ** [only_phase] *)

Module only_phase.
Section Hook.
Context {Phase : Type} `{!EqDecision Phase}.

Definition no_tournament : exn :=
  UserFeedbackCheckFailure (tr "There's no ongoing tournament.").

Definition wrong_phase : exn :=
  UserFeedbackCheckFailure (tr "This command cannot be executed right now.").

Definition hook (allowed_phases : list Phase)
    (tournaments : gmap Z (Tournament Phase)) (ctx : Context) : Result unit :=
  match ctx_guild_id ctx with
  | Raise e => Raise e
  | Ok gid =>
      match getitem tournaments gid with
      | Raise e => if is_KeyError e then Raise no_tournament else Raise e
      | Ok tournament =>
          match allowed_phases with
          | [] => Ok tt      (* just checking if tournament exists *)
          | _ =>
              if negb (bool_decide (phase tournament ∈ allowed_phases))
              then Raise wrong_phase
              else Ok tt
          end
      end
  end.

End Hook.
End only_phase.

(** ** [mod_or_to] *)

Module mod_or_to.

(** The two awaited questions to the bot, recorded when they are asked. *)
Inductive Query : Type :=
| IsMod (who : Member)
| IsOwner (who : Member).

Record Bot := {
  bot_is_mod : Member → bool;
  bot_is_owner : Member → bool
}.

Definition is_mod (bot : Bot) (who : Member) : M (list Query) bool :=
  λ asked, (Ok (bot_is_mod bot who), asked ++ [IsMod who]).

Definition is_owner (bot : Bot) (who : Member) : M (list Query) bool :=
  λ asked, (Ok (bot_is_owner bot who), asked ++ [IsOwner who]).

Section Check.
Context {Phase : Type}.

(** [tournament.to_role and tournament.to_role in ctx.author.roles] *)
Definition holds_to_role (tournament : Tournament Phase) (who : Member) : bool :=
  match to_role tournament with
  | None => false
  | Some r => bool_decide (r ∈ roles who)
  end.

Definition check (bot : Bot) (tournaments : gmap Z (Tournament Phase))
    (ctx : Context) : M (list Query) bool :=
  match ctx_guild ctx with
  | None => ret false
  | Some guild =>
      let author := ctx_author ctx in
      if bool_decide (member_id author = owner_id guild) then ret true else
      if administrator author then ret true else
      (m <- is_mod bot author ;;
       if m then ret true else
       o <- is_owner bot author ;;
       if o then ret true else
       try_except_else (lift (getitem tournaments (guild_id guild)))
         is_KeyError
         (λ _, ret false)
         (λ tournament,
            if holds_to_role tournament author then ret true else ret false))
  end.

End Check.
End mod_or_to.

(** ** [async_http_retry] *)

(** [range(n)] *)
Definition range (n : nat) : list Z := Z.of_nat <$> seq 0 n.

Module Retry.
Section Retry.
Context {A : Type}.

(** What the wrapper does to the outside: it awaits its argument and it
    sleeps. *)
Inductive Event : Type :=
| Awaited
| Slept (seconds : Z).

(** The pending operation is an object with state: [pending] lists what
    each further [await] of it yields.  A coroutine has one outcome;
    awaiting a used-up object raises [RuntimeError]. *)
Record State := {
  pending : list (Result A);
  log : list Event
}.

Definition await : M State A :=
  λ s, match pending s with
       | [] => (Raise (RuntimeError "cannot reuse already awaited coroutine"),
                {| pending := []; log := log s ++ [Awaited] |})
       | outcome :: later =>
           (outcome, {| pending := later; log := log s ++ [Awaited] |})
       end.

Definition sleep (seconds : Z) : M State unit :=
  λ s, (Ok tt, {| pending := pending s; log := log s ++ [Slept seconds] |}).

(** The [for retry in ...: ... else: ...] loop; [retries] is what is left
    of the range.  Nothing breaks out of the loop, so the [else] branch
    runs whenever the range is used up. *)
Fixpoint retry_loop (retries : list Z) (last_exc : option exn) : M State A :=
  match retries with
  | [] => raise (TimeoutError last_exc)
  | retry :: rest =>
      r <- catch await ;;
      match r with
      | Ok result => ret result
      | Raise (ChallongeException msg as e) =>
          if str_contains "504" msg     (* Gateway timeout *)
          then (sleep (1 + retry) ;;; retry_loop rest (Some e))
          else raise e
      | Raise (TimeoutError _ as e) => retry_loop rest (Some e)
      | Raise e => raise e
      end
  end.

Definition async_http_retry (coro : list (Result A)) : Result A * State :=
  retry_loop (range 1) None {| pending := coro; log := [] |}.

(** The errors after which the loop goes on to its next round. *)
Definition retryable (e : exn) : bool :=
  match e with
  | ChallongeException msg => str_contains "504" msg
  | TimeoutError _ => true
  | _ => false
  end.

End Retry.
End Retry.

(** ** [prompt_yes_or_no] *)

Module Prompt.
Section Prompt.
Context {Embed : Type}.

Inductive ButtonStyle : Type := green | red.

Record Button := {
  style : ButtonStyle;
  emoji : list Z;                 (* code points *)
  custom_id : string
}.

Definition View := list Button.

Record Message := {
  msg_id : Z;
  msg_content : string
}.

(** An interaction as the prompt looks at it: who caused it and the
    payload of the component that was used. *)
Record Interaction := {
  i_user_id : Z;
  i_data : gmap string string
}.

(** Calls to the chat service. *)
Inductive Call : Type :=
| Send (content : option string) (embed : option Embed) (view : option View)
| WaitFor (timeout : Z)
| Delete (message : Message)
| Edit (message : Message) (content : string) (embed : option Embed)
       (view : option View).

(** The chat service as the prompt meets it.
    - [w_interactions]: the interactions dispatched once the wait has
      begun, in dispatch order, each with the time elapsed since then;
    - [w_faults]: the fate of the successive calls, one entry per call,
      [Some e] making the call raise [e]; calls beyond the list succeed;
    - [w_next_id]: the identifier the next sent message gets;
    - [w_calls]: the calls made so far, failed ones included. *)
Record World := {
  w_interactions : list (Z * Interaction);
  w_faults : list (option exn);
  w_next_id : Z;
  w_calls : list Call
}.

(** The world once call [c] has been made: the call is on record and its
    fate is consumed. *)
Definition record_call (c : Call) (w : World) : World :=
  {| w_interactions := w_interactions w;
     w_faults := tail (w_faults w);
     w_next_id := w_next_id w;
     w_calls := w_calls w ++ [c] |}.

Definition perform (c : Call) : M World unit :=
  λ w, match w_faults w with
       | Some e :: _ => (Raise e, record_call c w)
       | _ => (Ok tt, record_call c w)
       end.

(** Every call the world still has a fate for succeeds. *)
Definition reliable (w : World) : Prop :=
  Forall (λ fate, fate = None) (w_faults w).

Definition is_cleanup (c : Call) : bool :=
  match c with
  | Delete _ | Edit _ _ _ _ => true
  | _ => false
  end.

(** The world once the identifier [w_next_id] has been given out. *)
Definition issue_id (w : World) : World :=
  {| w_interactions := w_interactions w;
     w_faults := w_faults w;
     w_next_id := w_next_id w + 1;
     w_calls := w_calls w |}.

(** [ctx.send(content, embed=embed, view=view)]; the message object that
    comes back carries the text that was sent, the empty string when there
    was none. *)
Definition send (content : option string) (embed : option Embed)
    (view : option View) : M World Message :=
  perform (Send content embed view) ;;;
  λ w, (Ok {| msg_id := w_next_id w; msg_content := default "" content |},
        issue_id w).

Definition message_delete (message : Message) : M World unit :=
  perform (Delete message).

Definition message_edit (message : Message) (content : string)
    (embed : option Embed) (view : option View) : M World unit :=
  perform (Edit message content embed view).

(** The first dispatched interaction that arrives before the deadline and
    passes [check]. *)
Fixpoint first_accepted (check : Interaction → bool) (timeout : Z)
    (events : list (Z * Interaction)) : option Interaction :=
  match events with
  | [] => None
  | (t, x) :: later =>
      if bool_decide (0 ≤ t < timeout) && check x then Some x
      else first_accepted check timeout later
  end.

(** [bot.wait_for("interaction", check=check, timeout=timeout)] of the
    chat library: returns the first interaction accepted by [check] within
    [timeout], and raises [asyncio.TimeoutError] when the deadline passes
    first. *)
Definition wait_for (check : Interaction → bool) (timeout : Z)
    : M World Interaction :=
  perform (WaitFor timeout) ;;;
  λ w, match first_accepted check timeout (w_interactions w) with
       | Some x => (Ok x, w)
       | None => (Raise (TimeoutError None), w)
       end.

Definition approve_id (ctx : Context) : string :=
  "yes-" +:+ pretty (ctx_message_id ctx).

Definition deny_id (ctx : Context) : string :=
  "no-" +:+ pretty (ctx_message_id ctx).

Definition approve_button (ctx : Context) : Button :=
  {| style := green; emoji := [0x2714; 0xFE0F]; custom_id := approve_id ctx |}.

Definition deny_button (ctx : Context) : Button :=
  {| style := red; emoji := [0x2716; 0xFE0F]; custom_id := deny_id ctx |}.

Definition check_same_user (ctx : Context) (interaction : Interaction) : bool :=
  bool_decide (i_user_id interaction = member_id (ctx_author ctx)).

Definition timed_out_notice : Call :=
  Send (Some (tr "Request timed out.")) None None.

Definition cancelled_notice : Call :=
  Send (Some (tr "Cancelled.")) None None.

Definition prompt_yes_or_no (ctx : Context) (content : option string)
    (embed : option Embed) (timeout : Z) (delete_after : bool)
    (negative_response : bool) : M World bool :=
  let view := [approve_button ctx; deny_button ctx] in
  message <- send content embed (Some view) ;;
  try_finally
    (try_except_else (wait_for (check_same_user ctx) timeout)
       is_TimeoutError
       (λ _, send (Some (tr "Request timed out.")) None None ;;; ret false)
       (λ x,
          let custom_id := i_data x !! "custom_id" in
          if bool_decide (custom_id = Some (approve_id ctx)) then ret true else
          ((if negative_response
            then send (Some (tr "Cancelled.")) None None ;;; ret tt
            else ret tt) ;;;
           ret false)))
    (if delete_after
     then message_delete message
     else message_edit message (msg_content message) embed None).

(** *** Vocabulary for the properties below *)

(** The prompt message and the call that cleans it up, as the function
    builds them from its arguments in world [w]. *)
Definition prompt_call (ctx : Context) (content : option string)
    (embed : option Embed) : Call :=
  Send content embed (Some [approve_button ctx; deny_button ctx]).

Definition prompt_message (content : option string) (w : World) : Message :=
  {| msg_id := w_next_id w; msg_content := default "" content |}.

Definition cleanup_call (content : option string) (embed : option Embed)
    (delete_after : bool) (w : World) : Call :=
  if delete_after then Delete (prompt_message content w)
  else Edit (prompt_message content w) (default "" content) embed None.

(** [m] only ever adds calls satisfying [P] to the record. *)
Definition adds_only {A} (P : Call → Prop) (m : M World A) : Prop :=
  ∀ w, ∃ made, w_calls (m w).2 = w_calls w ++ made ∧ Forall P made.

(** Two worlds that differ at most in interactions the wait does not
    accept. *)
Definition agree (check : Interaction → bool) (timeout : Z)
    (w w' : World) : Prop :=
  w_faults w = w_faults w' ∧ w_next_id w = w_next_id w' ∧
  w_calls w = w_calls w' ∧
  first_accepted check timeout (w_interactions w) =
    first_accepted check timeout (w_interactions w').

(** [m] cannot tell such worlds apart. *)
Definition respects {A} (check : Interaction → bool) (timeout : Z)
    (m : M World A) : Prop :=
  ∀ w w', agree check timeout w w' →
          (m w).1 = (m w').1 ∧ agree check timeout (m w).2 (m w').2.

End Prompt.
End Prompt.

(** ** Sample invocations

    Concrete contexts and worlds on which the properties below are
    exercised. *)

Module Sample.

Definition invoker : Member :=
  {| member_id := 3; administrator := false; roles := [] |}.

(** Invocation in guild 1 by user 3, through message 10. *)
Definition ctx : Context :=
  {| ctx_guild := Some {| guild_id := 1; owner_id := 2 |};
     ctx_author := invoker;
     ctx_message_id := 10;
     ctx_clean_prefix := "!" |}.

Definition press (user : Z) (id : string) : Prompt.Interaction :=
  {| Prompt.i_user_id := user; Prompt.i_data := {[ "custom_id" := id ]} |}.

Definition world (events : list (Z * Prompt.Interaction))
    (faults : list (option exn)) : @Prompt.World unit :=
  {| Prompt.w_interactions := events; Prompt.w_faults := faults;
     Prompt.w_next_id := 100; Prompt.w_calls := [] |}.

Definition prompt (delete_after negative_response : bool)
    : M (@Prompt.World unit) bool :=
  Prompt.prompt_yes_or_no ctx (Some "Are you sure?") None 30 delete_after
    negative_response.

End Sample.

(** * Properties *)

(** ** Strings *)

Lemma prefix_append needle post : String.prefix needle (needle +:+ post) = true.
Proof.
  induction needle as [|c needle IH].
  - by destruct post.
  - change (String.prefix (String c needle) (String c (needle +:+ post)) = true).
    simpl. destruct (Ascii.ascii_dec c c); [done|congruence].
Qed.

Lemma str_contains_prefix needle haystack :
  String.prefix needle haystack = true → str_contains needle haystack = true.
Proof. destruct haystack; simpl; intros ->; done. Qed.

Lemma str_contains_app needle pre post :
  str_contains needle (pre +:+ needle +:+ post) = true.
Proof.
  induction pre as [|c pre IH].
  - change (str_contains needle (needle +:+ post) = true).
    apply str_contains_prefix, prefix_append.
  - change (str_contains needle (String c (pre +:+ needle +:+ post)) = true).
    simpl. rewrite IH. apply orb_true_r.
Qed.

Lemma message_eq prefix :
  credentials_check.message prefix =
  "You need to set your Challonge credentials before using this command! Use `"
  +:+ prefix +:+ "help challongeset` for more info.".
Proof. reflexivity. Qed.

Lemma any_unset_spec (credentials : gmap string (option string)) :
  credentials_check.any_unset credentials = true ↔ ∃ k, credentials !! k = Some None.
Proof.
  unfold credentials_check.any_unset. rewrite existsb_exists. split.
  - intros (x & Hin & Hx). apply bool_decide_eq_true in Hx as ->.
    apply list_elem_of_In, list_elem_of_fmap in Hin as ([k v] & -> & Hkv).
    exists k. by apply elem_of_map_to_list in Hkv.
  - intros (k & Hk). exists None. split; [|by apply bool_decide_eq_true].
    apply list_elem_of_In, list_elem_of_fmap. exists (k, None). split; [done|].
    by apply elem_of_map_to_list.
Qed.

(** ** [credentials_check] *)

(** C5. Given the guild's credential mapping: when some entry is unset the
    hook aborts with a [UserFeedbackCheckFailure] whose text is the
    instruction to set the credentials, with the invocation's clean prefix
    inside it; when every entry is set the hook lets the command run. *)
Theorem credentials_check_gate (data : credentials_check.Store) (ctx : Context)
    (g : Guild) :
  ctx_guild ctx = Some g →
  ((∃ k, data g !! k = Some None) →
     credentials_check.hook data ctx =
       Raise (UserFeedbackCheckFailure
                ("You need to set your Challonge credentials before using this command! Use `"
                 +:+ ctx_clean_prefix ctx +:+ "help challongeset` for more info."))
     ∧ str_contains (ctx_clean_prefix ctx)
         (credentials_check.message (ctx_clean_prefix ctx)) = true) ∧
  ((∀ k v, data g !! k = Some v → v ≠ None) →
     credentials_check.hook data ctx = Ok tt).
Proof.
  intros Hg. unfold credentials_check.hook. rewrite Hg. split.
  - intros Hunset. apply any_unset_spec in Hunset. rewrite Hunset.
    split; [by rewrite message_eq|].
    rewrite message_eq. apply str_contains_app.
  - intros Hset. destruct (credentials_check.any_unset (data g)) eqn:E; [|done].
    apply any_unset_spec in E as [k Hk]. by destruct (Hset k None Hk).
Qed.

Lemma credentials_check_gate_witness :
  let ctx := {| ctx_guild := Some {| guild_id := 1; owner_id := 2 |};
                ctx_author := {| member_id := 3; administrator := false;
                                 roles := [] |};
                ctx_message_id := 10;
                ctx_clean_prefix := "!" |} in
  credentials_check.hook (λ _, {[ "username" := Some "laggron"; "api" := None ]}) ctx =
    Raise (UserFeedbackCheckFailure
             "You need to set your Challonge credentials before using this command! Use `!help challongeset` for more info.")
  ∧ credentials_check.hook (λ _, {[ "username" := Some "laggron"; "api" := Some "key" ]}) ctx
    = Ok tt.
Proof.
  intros ctx. split.
  - refine (proj1 (proj1 (credentials_check_gate _ ctx _ eq_refl) _)).
    exists "api". reflexivity.
  - refine (proj2 (credentials_check_gate _ ctx _ eq_refl) _).
    intros k v. rewrite lookup_insert_Some, lookup_singleton_Some.
    intros [[_ <-]|[_ [_ <-]]]; discriminate.
Defined.

(** C9. A guild whose credential mapping has no entry at all passes the
    gate: no value is unset because there is no value. *)
Theorem credentials_check_empty (data : credentials_check.Store) (ctx : Context)
    (g : Guild) :
  ctx_guild ctx = Some g →
  data g = ∅ →
  credentials_check.any_unset (data g) = false ∧ credentials_check.hook data ctx = Ok tt.
Proof.
  intros Hg Hempty. unfold credentials_check.hook. rewrite Hg, Hempty.
  unfold credentials_check.any_unset. by rewrite map_to_list_empty.
Qed.

Lemma credentials_check_empty_witness :
  credentials_check.hook (λ _, ∅)
    {| ctx_guild := Some {| guild_id := 1; owner_id := 2 |};
       ctx_author := {| member_id := 3; administrator := false; roles := [] |};
       ctx_message_id := 10;
       ctx_clean_prefix := "!" |} = Ok tt.
Proof.
  eapply credentials_check_empty; reflexivity.
Defined.

(** ** [only_phase] *)

Section PhaseGateFacts.
Context {Phase : Type} `{!EqDecision Phase}.
Implicit Types (allowed : list Phase) (tournaments : gmap Z (Tournament Phase)).

Lemma hook_registered allowed tournaments ctx g t :
  ctx_guild ctx = Some g →
  tournaments !! guild_id g = Some t →
  only_phase.hook allowed tournaments ctx =
    match allowed with
    | [] => Ok tt
    | _ => if bool_decide (phase t ∈ allowed) then Ok tt
           else Raise only_phase.wrong_phase
    end.
Proof.
  intros Hg Ht. unfold only_phase.hook, ctx_guild_id, getitem.
  rewrite Hg, Ht. destruct allowed; [done|]. by case_bool_decide.
Qed.

(** C3. Without a tournament registered for the guild the hook aborts with
    the "no ongoing tournament" failure.  With one registered, an empty set
    of allowed phases lets the command run whatever the phase is; a
    non-empty set lets it run exactly when the current phase belongs to the
    set, and aborts with the generic failure otherwise. *)
Theorem only_phase_gate allowed tournaments (ctx : Context) (g : Guild) :
  ctx_guild ctx = Some g →
  (tournaments !! guild_id g = None →
     only_phase.hook allowed tournaments ctx =
       Raise (UserFeedbackCheckFailure "There's no ongoing tournament.")) ∧
  (∀ t, tournaments !! guild_id g = Some t →
     (allowed = [] → only_phase.hook allowed tournaments ctx = Ok tt) ∧
     (allowed ≠ [] →
        (only_phase.hook allowed tournaments ctx = Ok tt ↔ phase t ∈ allowed) ∧
        (phase t ∉ allowed →
           only_phase.hook allowed tournaments ctx =
             Raise (UserFeedbackCheckFailure
                      "This command cannot be executed right now.")))).
Proof.
  intros Hg. split.
  - intros Hnone. unfold only_phase.hook, ctx_guild_id, getitem.
    by rewrite Hg, Hnone.
  - intros t Ht. rewrite (hook_registered _ _ _ _ _ Hg Ht). split.
    + by intros ->.
    + intros Hne. destruct allowed as [|p allowed']; [done|].
      case_bool_decide; split; done.
Qed.

End PhaseGateFacts.

Lemma only_phase_gate_witness :
  let ctx := {| ctx_guild := Some {| guild_id := 1; owner_id := 2 |};
                ctx_author := {| member_id := 3; administrator := false;
                                 roles := [] |};
                ctx_message_id := 10;
                ctx_clean_prefix := "!" |} in
  let ongoing : Tournament string := {| phase := "ongoing"; to_role := None |} in
  only_phase.hook ["register"] (∅ : gmap Z (Tournament string)) ctx =
    Raise (UserFeedbackCheckFailure "There's no ongoing tournament.")
  ∧ only_phase.hook [] {[ 1 := ongoing ]} ctx = Ok tt
  ∧ only_phase.hook ["register"; "ongoing"] {[ 1 := ongoing ]} ctx = Ok tt
  ∧ only_phase.hook ["register"] {[ 1 := ongoing ]} ctx =
      Raise (UserFeedbackCheckFailure "This command cannot be executed right now.").
Proof.
  intros ctx ongoing. split; [|split; [|split]].
  - apply (only_phase_gate ["register"] ∅ ctx _ eq_refl). reflexivity.
  - destruct (only_phase_gate [] {[ 1 := ongoing ]} ctx _ eq_refl) as [_ H].
    destruct (H ongoing eq_refl) as [Hempty _]. exact (Hempty eq_refl).
  - destruct (only_phase_gate ["register"; "ongoing"] {[ 1 := ongoing ]} ctx _
                eq_refl) as [_ H].
    destruct (H ongoing eq_refl) as [_ Hsome].
    destruct Hsome as [Hiff _]; [discriminate|].
    apply Hiff, list_elem_of_In. right. left. reflexivity.
  - destruct (only_phase_gate ["register"] {[ 1 := ongoing ]} ctx _ eq_refl)
      as [_ H].
    destruct (H ongoing eq_refl) as [_ Hsome].
    destruct Hsome as [_ Hout]; [discriminate|].
    apply Hout. intros Hin. apply list_elem_of_In in Hin.
    destruct Hin as [Heq|[]]. discriminate Heq.
Defined.

(** ** [mod_or_to] *)

Section PermissionFacts.
Context {Phase : Type}.
Implicit Types (tournaments : gmap Z (Tournament Phase)).

(** The sixth rule of the predicate: a tournament is registered for the
    guild and the author holds its organizer role. *)
Lemma organizer_rule tournaments (g : Guild) (author : Member)
    (asked : list mod_or_to.Query) :
  try_except_else (lift (getitem tournaments (guild_id g))) is_KeyError
    (λ _, ret false)
    (λ t : Tournament Phase,
       if mod_or_to.holds_to_role t author then ret true else ret false)
    asked
  = (Ok (match tournaments !! guild_id g with
         | Some t => mod_or_to.holds_to_role t author
         | None => false
         end), asked).
Proof.
  unfold try_except_else, lift, getitem, ret.
  destruct (tournaments !! guild_id g) as [t|]; [|done].
  by destruct (mod_or_to.holds_to_role t author).
Qed.

Lemma holds_to_role_spec (t : Tournament Phase) (author : Member) :
  mod_or_to.holds_to_role t author = true ↔
  ∃ r, to_role t = Some r ∧ r ∈ roles author.
Proof.
  unfold mod_or_to.holds_to_role. destruct (to_role t) as [r|].
  - rewrite bool_decide_eq_true. split.
    + intros Hin. by exists r.
    + by intros (r' & [= <-] & Hin).
  - split; [done|]. by intros (r & [=] & _).
Qed.

(** The check on a guild context, as one equation: the value is the
    disjunction of the six rules, the questions asked are those met before
    the first rule that holds. *)
Lemma check_in_guild (bot : mod_or_to.Bot) tournaments (ctx : Context)
    (g : Guild) (asked : list mod_or_to.Query) :
  ctx_guild ctx = Some g →
  let author := ctx_author ctx in
  mod_or_to.check bot tournaments ctx asked =
    (Ok (bool_decide (member_id author = owner_id g)
         || administrator author
         || mod_or_to.bot_is_mod bot author
         || mod_or_to.bot_is_owner bot author
         || match tournaments !! guild_id g with
            | Some t => mod_or_to.holds_to_role t author
            | None => false
            end),
     asked ++
       (if bool_decide (member_id author = owner_id g) || administrator author
        then []
        else if mod_or_to.bot_is_mod bot author
             then [mod_or_to.IsMod author]
             else [mod_or_to.IsMod author; mod_or_to.IsOwner author])).
Proof.
  intros Hg author. unfold mod_or_to.check. rewrite Hg. fold author.
  case_bool_decide; simpl; [by rewrite app_nil_r|].
  destruct (administrator author); simpl; [by rewrite app_nil_r|].
  unfold bind at 1. unfold mod_or_to.is_mod.
  destruct (mod_or_to.bot_is_mod bot author); simpl; [done|].
  unfold bind, mod_or_to.is_owner.
  destruct (mod_or_to.bot_is_owner bot author); simpl.
  - by rewrite <- app_assoc.
  - rewrite organizer_rule. by rewrite <- app_assoc.
Qed.

(** C4. The check always returns a boolean and never raises.  Without a
    guild it returns false.  With a guild it returns true exactly when the
    author is the guild owner, or is an administrator, or is a moderator of
    the bot, or is an owner of the bot, or a tournament is registered for
    the guild and the author holds its organizer role; a missing tournament
    makes the last rule false.  The rules are tried in this order and the
    first that holds ends the evaluation: the bot is asked about moderators
    only when the first two rules fail, and about owners only when it has
    denied the moderator question. *)
Theorem mod_or_to_check (bot : mod_or_to.Bot) tournaments (ctx : Context)
    (asked : list mod_or_to.Query) :
  let author := ctx_author ctx in
  let run := mod_or_to.check bot tournaments ctx asked in
  (∃ b, run.1 = Ok b) ∧
  (ctx_guild ctx = None → run = (Ok false, asked)) ∧
  (∀ g, ctx_guild ctx = Some g →
     (run.1 = Ok true ↔
        member_id author = owner_id g
        ∨ administrator author = true
        ∨ mod_or_to.bot_is_mod bot author = true
        ∨ mod_or_to.bot_is_owner bot author = true
        ∨ ∃ t r, tournaments !! guild_id g = Some t
                 ∧ to_role t = Some r ∧ r ∈ roles author) ∧
     (tournaments !! guild_id g = None →
        member_id author ≠ owner_id g → administrator author = false →
        mod_or_to.bot_is_mod bot author = false →
        mod_or_to.bot_is_owner bot author = false →
        run.1 = Ok false) ∧
     run.2 = asked ++
       (if bool_decide (member_id author = owner_id g) || administrator author
        then []
        else if mod_or_to.bot_is_mod bot author
             then [mod_or_to.IsMod author]
             else [mod_or_to.IsMod author; mod_or_to.IsOwner author])).
Proof.
  intros author run. subst run.
  destruct (ctx_guild ctx) as [g|] eqn:Hg.
  2: { unfold mod_or_to.check. rewrite Hg.
       split; [by exists false|]. split; [done|]. intros g [=]. }
  rewrite (check_in_guild bot tournaments ctx g asked Hg). fold author.
  split; [eauto|]. split; [done|]. intros g' [= <-]. simpl.
  split; [|split; [|done]].
  - split.
    + intros [= Hb]. rewrite !orb_true_iff, bool_decide_eq_true in Hb.
      destruct Hb as [[[[?|?]|?]|?]|Hrole]; auto.
      destruct (tournaments !! guild_id g) as [t|]; [|done].
      apply holds_to_role_spec in Hrole as (r & ? & ?).
      do 4 right. by exists t, r.
    + intros H. f_equal. rewrite !orb_true_iff, bool_decide_eq_true.
      destruct H as [?|[?|[?|[?|(t & r & -> & ? & ?)]]]]; auto.
      right. apply holds_to_role_spec. by exists r.
  - intros -> Howner -> -> ->. by rewrite bool_decide_eq_false_2.
Qed.

End PermissionFacts.

Lemma mod_or_to_check_witness :
  let organizer := {| member_id := 3; administrator := false; roles := [40; 41] |} in
  let guild := {| guild_id := 1; owner_id := 2 |} in
  let in_guild := {| ctx_guild := Some guild; ctx_author := organizer;
                     ctx_message_id := 10; ctx_clean_prefix := "!" |} in
  let in_dm := {| ctx_guild := None; ctx_author := organizer;
                  ctx_message_id := 10; ctx_clean_prefix := "!" |} in
  let bot := {| mod_or_to.bot_is_mod := λ _, false;
                mod_or_to.bot_is_owner := λ _, false |} in
  let ongoing : Tournament string := {| phase := "ongoing"; to_role := Some 41 |} in
  (mod_or_to.check bot {[ 1 := ongoing ]} in_guild []).1 = Ok true
  ∧ (mod_or_to.check bot (∅ : gmap Z (Tournament string)) in_guild []).1 = Ok false
  ∧ mod_or_to.check bot {[ 1 := ongoing ]} in_dm [] = (Ok false, []).
Proof.
  intros organizer guild in_guild in_dm bot ongoing. split; [|split].
  - destruct (mod_or_to_check bot {[ 1 := ongoing ]} in_guild []) as (_ & _ & H).
    destruct (H guild eq_refl) as (Hiff & _ & _). apply Hiff.
    do 4 right. exists ongoing, 41. split; [reflexivity|]. split; [reflexivity|].
    apply list_elem_of_In. right. left. reflexivity.
  - destruct (mod_or_to_check bot (∅ : gmap Z (Tournament string)) in_guild [])
      as (_ & _ & H).
    destruct (H guild eq_refl) as (_ & Hnone & _).
    apply Hnone; [reflexivity|discriminate|reflexivity..].
  - destruct (mod_or_to_check bot {[ 1 := ongoing ]} in_dm []) as (_ & Hdm & _).
    exact (Hdm eq_refl).
Defined.

(** ** [async_http_retry] *)

Section RetryFacts.
Context {A : Type}.
Implicit Types (later : list (Result A)) (log : list Retry.Event).

(** One round of the loop on a retryable error: the error is remembered
    and the loop goes on with what is left of the range. *)
Lemma retry_loop_retryable retry rest last (e : exn) later log :
  Retry.retryable e = true →
  ∃ log', Retry.retry_loop (retry :: rest) last
            {| Retry.pending := Raise e :: later; Retry.log := log |}
          = Retry.retry_loop rest (Some e)
              {| Retry.pending := later; Retry.log := log' |}.
Proof.
  intros He. simpl. unfold bind, catch, Retry.await. simpl.
  destruct e; simpl in He; try discriminate.
  - rewrite He. unfold Retry.sleep. simpl. eauto.
  - eauto.
Qed.

(** When every round meets a retryable error, the loop uses up its range
    and raises a timeout whose cause is the last error met; outcomes beyond
    the range are never awaited. *)
Lemma retry_loop_exhausts (retries : list Z) :
  ∀ (errors : list exn) last_exc later log,
    length errors = length retries →
    Forall (λ e, Retry.retryable e = true) errors →
    let run := Retry.retry_loop retries last_exc
                 {| Retry.pending := (Raise <$> errors) ++ later;
                    Retry.log := log |} in
    run.1 = Raise (TimeoutError (from_option Some last_exc (last errors)))
    ∧ Retry.pending run.2 = later.
Proof.
  induction retries as [|retry rest IH]; intros errors prev later log Hlen Hall.
  - destruct errors; [|done]. done.
  - destruct errors as [|e errors]; [done|].
    apply Forall_cons in Hall as [He Hall]. simpl in Hlen.
    destruct (retry_loop_retryable retry rest prev e
                ((Raise <$> errors) ++ later) log He) as [log' Hstep].
    change ((Raise <$> e :: errors) ++ later)
      with (Raise (A:=A) e :: (Raise <$> errors) ++ later).
    cbv zeta. rewrite Hstep.
    destruct (IH errors (Some e) later log') as [Hres Hpend];
      [congruence|done|].
    cbv zeta in Hres, Hpend. rewrite Hres, Hpend. split; [|done].
    destruct errors as [|e' errors]; [done|]. rewrite last_cons_cons.
    destruct (last (e' :: errors)) eqn:Hlast; [done|].
    by apply last_None in Hlast.
Qed.

(** C1. When awaiting the pending operation raises a Challonge error whose
    message contains "504", or a local timeout, the one round of the loop is
    used up and an [asyncio.TimeoutError] is raised whose cause is that
    error.  The operation is awaited once: an operation that would succeed
    if awaited again ends in the same chained timeout, its success never
    being asked for. *)
Theorem async_http_retry_exhausts :
  (∀ msg later,
     str_contains "504" msg = true →
     Retry.async_http_retry (Raise (ChallongeException msg) :: later) =
       (Raise (TimeoutError (Some (ChallongeException msg))),
        {| Retry.pending := later;
           Retry.log := [Retry.Awaited; Retry.Slept 1] |})) ∧
  (∀ cause later,
     Retry.async_http_retry (Raise (TimeoutError cause) :: later) =
       (Raise (TimeoutError (Some (TimeoutError cause))),
        {| Retry.pending := later; Retry.log := [Retry.Awaited] |})) ∧
  (∀ e (v : A) later,
     Retry.retryable e = true →
     let run := Retry.async_http_retry (Raise e :: Ok v :: later) in
     run.1 = Raise (TimeoutError (Some e))
     ∧ Retry.pending run.2 = Ok v :: later).
Proof.
  split; [|split].
  - intros msg later H504. unfold Retry.async_http_retry. simpl.
    unfold bind, catch, Retry.await. simpl. by rewrite H504.
  - done.
  - intros e v later He.
    apply (retry_loop_exhausts (range 1) [e] None (Ok v :: later) []);
      [done|by apply Forall_singleton].
Qed.

(** C8. A Challonge error whose message does not contain "504" leaves the
    wrapper as it entered it: the same exception, after one await, without
    any sleep.  A successful await returns the operation's result. *)
Theorem async_http_retry_passes :
  (∀ msg later,
     str_contains "504" msg = false →
     Retry.async_http_retry (Raise (ChallongeException msg) :: later) =
       (Raise (ChallongeException msg),
        {| Retry.pending := later; Retry.log := [Retry.Awaited] |})) ∧
  (∀ (v : A) later,
     Retry.async_http_retry (Ok v :: later) =
       (Ok v, {| Retry.pending := later; Retry.log := [Retry.Awaited] |})).
Proof.
  split.
  - intros msg later H504. unfold Retry.async_http_retry. simpl.
    unfold bind, catch, Retry.await. simpl. by rewrite H504.
  - done.
Qed.

End RetryFacts.

Lemma async_http_retry_exhausts_witness :
  Retry.async_http_retry
    [Raise (ChallongeException "504 Gateway Time-out"); Ok 7%nat] =
    (Raise (TimeoutError (Some (ChallongeException "504 Gateway Time-out"))),
     {| Retry.pending := [Ok 7%nat];
        Retry.log := [Retry.Awaited; Retry.Slept 1] |})
  ∧ (Retry.async_http_retry [Raise (TimeoutError None); Ok 7%nat]).1 =
      Raise (TimeoutError (Some (TimeoutError None))).
Proof.
  split.
  - apply (proj1 (@async_http_retry_exhausts nat)). reflexivity.
  - apply (proj2 (proj2 (@async_http_retry_exhausts nat))
             (TimeoutError None) 7%nat []).
    reflexivity.
Defined.

Lemma async_http_retry_passes_witness :
  Retry.async_http_retry
    [Raise (ChallongeException "404 Not Found"); Ok 7%nat] =
    (Raise (ChallongeException "404 Not Found"),
     {| Retry.pending := [Ok 7%nat]; Retry.log := [Retry.Awaited] |}).
Proof.
  apply (proj1 (@async_http_retry_passes nat)). reflexivity.
Defined.

(** ** [prompt_yes_or_no] *)

Section PromptFacts.
Context {Embed : Type}.
Implicit Types (w : @Prompt.World Embed) (c : @Prompt.Call Embed).
Import Prompt.

Lemma perform_reliable c w :
  reliable w → perform c w = (Ok tt, record_call c w) ∧ reliable (record_call c w).
Proof.
  unfold reliable, perform. destruct w as [evs faults nid calls]; simpl.
  intros Hrel. destruct Hrel as [|fate faults Hfate Hrest]; [by split|].
  subst fate. by split.
Qed.

Lemma send_reliable content embed view w :
  reliable w →
  send content embed view w =
    (Ok (prompt_message content w), issue_id (record_call (Send content embed view) w))
  ∧ reliable (issue_id (record_call (Send content embed view) w)).
Proof.
  intros Hrel. unfold send, bind.
  destruct (perform_reliable (Send content embed view) w Hrel) as [-> Hrel'].
  done.
Qed.

Lemma wait_for_reliable check timeout w :
  reliable w →
  wait_for check timeout w =
    (match first_accepted check timeout (w_interactions w) with
     | Some x => Ok x
     | None => Raise (TimeoutError None)
     end, record_call (WaitFor timeout) w)
  ∧ reliable (record_call (WaitFor timeout) w).
Proof.
  intros Hrel. unfold wait_for, bind.
  destruct (perform_reliable (WaitFor timeout) w Hrel) as [-> Hrel'].
  split; [|done]. simpl. by destruct (first_accepted _ _ _).
Qed.

Lemma cleanup_reliable content (embed : option Embed) (delete_after : bool) w0 w :
  reliable w →
  (if delete_after
   then message_delete (prompt_message content w0)
   else message_edit (prompt_message content w0)
          (msg_content (prompt_message content w0)) embed None) w
  = (Ok tt, record_call (cleanup_call content embed delete_after w0) w).
Proof.
  intros Hrel. unfold cleanup_call, message_delete, message_edit.
  destruct delete_after; by apply perform_reliable.
Qed.

(** On a reliable chat service the prompt is determined by how the wait
    ends. *)
Lemma prompt_reliable (ctx : Context) content (embed : option Embed) timeout
    (delete_after negative_response : bool) w :
  reliable w →
  let waiting := record_call (WaitFor timeout)
                   (issue_id (record_call (prompt_call ctx content embed) w)) in
  let cleanup := record_call (cleanup_call content embed delete_after w) in
  prompt_yes_or_no ctx content embed timeout delete_after negative_response w =
  match first_accepted (check_same_user ctx) timeout (w_interactions w) with
  | None => (Ok false, cleanup (issue_id (record_call timed_out_notice waiting)))
  | Some x =>
      if bool_decide (i_data x !! "custom_id" = Some (approve_id ctx))
      then (Ok true, cleanup waiting)
      else (Ok false,
            cleanup (if negative_response
                     then issue_id (record_call cancelled_notice waiting)
                     else waiting))
  end.
Proof.
  intros Hrel waiting cleanup. subst waiting cleanup.
  unfold prompt_yes_or_no, prompt_call. unfold bind at 1.
  destruct (send_reliable content embed
              (Some [approve_button ctx; deny_button ctx]) w Hrel) as [-> Hrel1].
  unfold try_finally, try_except_else.
  destruct (wait_for_reliable (check_same_user ctx) timeout _ Hrel1)
    as [-> Hrel2].
  change (w_interactions (issue_id (record_call _ w))) with (w_interactions w).
  destruct (first_accepted (check_same_user ctx) timeout (w_interactions w))
    as [x|].
  - case_bool_decide.
    + unfold ret. by rewrite cleanup_reliable.
    + destruct negative_response.
      * unfold bind, ret.
        destruct (send_reliable (Some (tr "Cancelled.")) None None _ Hrel2)
          as [-> Hrel3].
        by rewrite cleanup_reliable.
      * unfold bind, ret. by rewrite cleanup_reliable.
  - simpl is_TimeoutError. cbv iota. unfold bind, ret.
    destruct (send_reliable (Some (tr "Request timed out.")) None None _ Hrel2)
      as [-> Hrel3].
    by rewrite cleanup_reliable.
Qed.


(** *** What a run adds to the record *)

Lemma adds_only_ret {A} (P : @Call Embed → Prop) (a : A) : adds_only P (ret a).
Proof. intros w. exists []. by rewrite app_nil_r. Qed.

Lemma adds_only_perform (P : @Call Embed → Prop) c : P c → adds_only P (perform c).
Proof.
  intros Hc w. exists [c]. split; [|by apply Forall_singleton].
  unfold perform. by destruct (w_faults w) as [|[e|] rest].
Qed.

Lemma adds_only_bind {A B} (P : @Call Embed → Prop) (m : M World A) (k : A → M World B) :
  adds_only P m → (∀ a, adds_only P (k a)) → adds_only P (bind m k).
Proof.
  intros Hm Hk w. unfold bind. destruct (Hm w) as (made & Hmade & HP).
  destruct (m w) as [[a|e] w1]; simpl in Hmade.
  - destruct (Hk a w1) as (made' & Hmade' & HP').
    exists (made ++ made'). split; [|by apply Forall_app].
    by rewrite Hmade', Hmade, app_assoc.
  - by exists made.
Qed.

Lemma adds_only_try_except_else {A B} (P : @Call Embed → Prop) (body : M World A)
    handles (handler : exn → M World B) (orelse : A → M World B) :
  adds_only P body → (∀ e, adds_only P (handler e)) →
  (∀ a, adds_only P (orelse a)) →
  adds_only P (try_except_else body handles handler orelse).
Proof.
  intros Hbody Hhandler Horelse w. unfold try_except_else.
  destruct (Hbody w) as (made & Hmade & HP).
  destruct (body w) as [[a|e] w1]; simpl in Hmade.
  - destruct (Horelse a w1) as (made' & Hmade' & HP').
    exists (made ++ made'). split; [|by apply Forall_app].
    by rewrite Hmade', Hmade, app_assoc.
  - destruct (handles e); [|by exists made].
    destruct (Hhandler e w1) as (made' & Hmade' & HP').
    exists (made ++ made'). split; [|by apply Forall_app].
    by rewrite Hmade', Hmade, app_assoc.
Qed.

Lemma adds_only_send (P : @Call Embed → Prop) content (embed : option Embed) view :
  P (Send content embed view) → adds_only P (send content embed view).
Proof.
  intros Hc. apply adds_only_bind; [by apply adds_only_perform|].
  intros _ w. exists []. by rewrite app_nil_r.
Qed.

Lemma adds_only_wait_for (P : @Call Embed → Prop) check timeout :
  P (WaitFor timeout) → adds_only (Embed:=Embed) P (wait_for check timeout).
Proof.
  intros Hc. apply adds_only_bind; [by apply adds_only_perform|].
  intros _ w. exists []. rewrite app_nil_r.
  by destruct (first_accepted check timeout (w_interactions w)).
Qed.

(** The cleanup is attempted once, after whatever the protected block did. *)
Lemma try_finally_perform {A} (body : M World A) c w :
  w_calls (try_finally body (perform c) w).2 = w_calls (body w).2 ++ [c].
Proof.
  unfold try_finally, perform. destruct (body w) as [r w1]. simpl.
  by destruct (w_faults w1) as [|[e|] rest].
Qed.

Lemma prompt_cleanup_footprint (ctx : Context) content (embed : option Embed)
    timeout (delete_after negative_response : bool) w :
  (∀ e, head (w_faults w) ≠ Some (Some e)) →
  ∃ during,
    w_calls (prompt_yes_or_no ctx content embed timeout delete_after
               negative_response w).2
    = w_calls w ++ [prompt_call ctx content embed] ++ during
        ++ [cleanup_call content embed delete_after w]
    ∧ Forall (λ c, is_cleanup c = false) during.
Proof.
  intros Hsent. unfold prompt_yes_or_no. unfold bind at 1.
  assert (send content embed (Some [approve_button ctx; deny_button ctx]) w
          = (Ok (prompt_message content w),
             issue_id (record_call (prompt_call ctx content embed) w))) as ->.
  { unfold send, bind, perform.
    destruct (w_faults w) as [|[e|] rest]; [done| |done].
    by destruct (Hsent e). }
  replace (if delete_after
           then message_delete (prompt_message content w)
           else message_edit (prompt_message content w)
                  (msg_content (prompt_message content w)) embed None)
    with (perform (cleanup_call content embed delete_after w))
    by (by destruct delete_after).
  rewrite try_finally_perform.
  match goal with
  | |- context [w_calls (?body ?w1).2] =>
      assert (adds_only (λ c, is_cleanup c = false) body) as Hbody
  end.
  { apply adds_only_try_except_else.
    - by apply adds_only_wait_for.
    - intros e. apply adds_only_bind; [by apply adds_only_send|].
      intros _. apply adds_only_ret.
    - intros x. case_bool_decide; [apply adds_only_ret|].
      apply adds_only_bind; [|intros _; apply adds_only_ret].
      destruct negative_response; [|apply adds_only_ret].
      apply adds_only_bind; [by apply adds_only_send|].
      intros _. apply adds_only_ret. }
  destruct (Hbody (issue_id (record_call (prompt_call ctx content embed) w)))
    as (during & -> & Hduring).
  exists during. split; [|done]. simpl. by rewrite <- ?app_assoc.
Qed.


(** *** Interactions the wait does not accept *)

Lemma first_accepted_Some check timeout (events : list (Z * Interaction)) x :
  first_accepted check timeout events = Some x →
  check x = true ∧ ∃ t, (t, x) ∈ events ∧ 0 ≤ t < timeout.
Proof.
  induction events as [|[t y] events IH]; [done|]. simpl.
  destruct (bool_decide (0 ≤ t < timeout) && check y) eqn:Hacc.
  - intros [= <-]. apply andb_true_iff in Hacc as [Ht Hy].
    apply bool_decide_eq_true in Ht. split; [done|].
    exists t. split; [apply list_elem_of_here|done].
  - intros Hx. destruct (IH Hx) as (Hc & t' & Hin & Ht'). split; [done|].
    exists t'. split; [by apply list_elem_of_further|done].
Qed.

Lemma first_accepted_None check timeout (events : list (Z * Interaction)) :
  (∀ t x, (t, x) ∈ events → check x = true → ¬ (0 ≤ t < timeout)) →
  first_accepted check timeout events = None.
Proof.
  intros Hlate.
  destruct (first_accepted check timeout events) as [x|] eqn:Hx; [|done].
  apply first_accepted_Some in Hx as (Hc & t & Hin & Ht).
  by destruct (Hlate t x Hin Hc).
Qed.

Lemma first_accepted_filter (ctx : Context) timeout
    (events : list (Z * Interaction)) :
  first_accepted (check_same_user ctx) timeout
    (filter (λ ev, i_user_id ev.2 = member_id (ctx_author ctx)) events)
  = first_accepted (check_same_user ctx) timeout events.
Proof.
  induction events as [|[t x] events IH]; [done|].
  rewrite filter_cons. simpl. unfold check_same_user at 2.
  case_decide as Huser; simpl in Huser.
  - simpl. destruct (_ && _); [done|apply IH].
  - simpl. unfold check_same_user at 2.
    rewrite (bool_decide_eq_false_2 _ Huser), andb_false_r. apply IH.
Qed.

Section Respects.
Variables (check : Interaction → bool) (timeout : Z).

Lemma agree_refl w : agree check timeout w w.
Proof. done. Qed.

Lemma respects_ret {A} (a : A) : respects (Embed:=Embed) check timeout (ret a).
Proof. by intros w w' H. Qed.

Lemma respects_perform c : respects check timeout (perform c).
Proof.
  intros w w' (Hf & Hn & Hc & Ha). unfold perform, agree, record_call.
  rewrite Hf. destruct (w_faults w') as [|[e|] rest]; simpl;
    by rewrite Hn, Hc, Ha.
Qed.

Lemma respects_bind {A B} (m : M World A) (k : A → M World B) :
  respects (Embed:=Embed) check timeout m →
  (∀ a, respects check timeout (k a)) →
  respects check timeout (bind m k).
Proof.
  intros Hm Hk w w' Hww. unfold bind. destruct (Hm w w' Hww) as [Hr Ha].
  destruct (m w) as [r w1], (m w') as [r' w1']. simpl in Hr, Ha. subst r'.
  destruct r as [a|e]; [by apply Hk|done].
Qed.

Lemma respects_try_except_else {A B} (body : M World A) handles
    (handler : exn → M World B) (orelse : A → M World B) :
  respects (Embed:=Embed) check timeout body →
  (∀ e, respects check timeout (handler e)) →
  (∀ a, respects check timeout (orelse a)) →
  respects check timeout (try_except_else body handles handler orelse).
Proof.
  intros Hbody Hhandler Horelse w w' Hww. unfold try_except_else.
  destruct (Hbody w w' Hww) as [Hr Ha].
  destruct (body w) as [r w1], (body w') as [r' w1']. simpl in Hr, Ha. subst r'.
  destruct r as [a|e]; [by apply Horelse|].
  destruct (handles e); [by apply Hhandler|done].
Qed.

Lemma respects_try_finally {A} (body : M World A) (cleanup : M World unit) :
  respects (Embed:=Embed) check timeout body →
  respects check timeout cleanup →
  respects check timeout (try_finally body cleanup).
Proof.
  intros Hbody Hcleanup w w' Hww. unfold try_finally.
  destruct (Hbody w w' Hww) as [Hr Ha].
  destruct (body w) as [r w1], (body w') as [r' w1']. simpl in Hr, Ha. subst r'.
  destruct (Hcleanup w1 w1' Ha) as [Hr' Ha'].
  destruct (cleanup w1) as [u w2], (cleanup w1') as [u' w2'].
  simpl in Hr', Ha'. subst u'. by destruct u.
Qed.

Lemma respects_send content (embed : option Embed) view :
  respects check timeout (send content embed view).
Proof.
  apply respects_bind; [apply respects_perform|].
  intros _ w w' (Hf & Hn & Hc & Ha). unfold agree. simpl. by rewrite Hf, Hn, Hc, Ha.
Qed.

Lemma respects_wait_for : respects (Embed:=Embed) check timeout (wait_for check timeout).
Proof.
  apply respects_bind; [apply respects_perform|].
  intros _ w w' Hww. pose proof Hww as (_ & _ & _ & Ha). rewrite Ha.
  by destruct (first_accepted check timeout (w_interactions w')).
Qed.

End Respects.

Lemma respects_prompt (ctx : Context) content (embed : option Embed) timeout
    (delete_after negative_response : bool) :
  respects (check_same_user ctx) timeout
    (prompt_yes_or_no ctx content embed timeout delete_after negative_response).
Proof.
  unfold prompt_yes_or_no.
  apply respects_bind; [apply respects_send|]. intros message.
  apply respects_try_finally.
  - apply respects_try_except_else.
    + apply respects_wait_for.
    + intros e. apply respects_bind; [apply respects_send|].
      intros _. apply respects_ret.
    + intros x. case_bool_decide; [apply respects_ret|].
      apply respects_bind; [|intros _; apply respects_ret].
      destruct negative_response; [|apply respects_ret].
      apply respects_bind; [apply respects_send|]. intros _. apply respects_ret.
  - destruct delete_after; apply respects_perform.
Qed.

(** The prompt answers true only through its own approve identifier,
    whatever the chat service does to the calls. *)
Lemma prompt_true_inv (ctx : Context) content (embed : option Embed) timeout
    (delete_after negative_response : bool) w :
  (prompt_yes_or_no ctx content embed timeout delete_after negative_response w).1
    = Ok true →
  ∃ x, first_accepted (check_same_user ctx) timeout (w_interactions w) = Some x
       ∧ i_data x !! "custom_id" = Some (approve_id ctx).
Proof.
  unfold prompt_yes_or_no. unfold bind at 1.
  destruct (send content embed _ w) as [[message|e] w1] eqn:Hsend; [|done].
  assert (w_interactions w1 = w_interactions w) as Hsame.
  { revert Hsend. unfold send, bind, perform.
    destruct (w_faults w) as [|[e|] rest]; intros [= _ <-]; done. }
  generalize (if delete_after
              then message_delete message
              else message_edit message (msg_content message) embed None).
  intros cleanup. unfold try_finally, try_except_else.
  destruct (wait_for (check_same_user ctx) timeout w1) as [[x|e] w2] eqn:Hwait.
  - assert (first_accepted (check_same_user ctx) timeout (w_interactions w)
            = Some x) as Hx.
    { revert Hwait. rewrite <- Hsame. unfold wait_for, bind, perform.
      destruct (w_faults w1) as [|[e|] rest]; simpl;
        destruct (first_accepted _ _ _); intros [=]; by subst. }
    case_bool_decide as Hid; [by exists x|].
    intros Htrue. exfalso. revert Htrue. unfold bind, ret.
    destruct negative_response.
    + destruct (send (Some (tr "Cancelled.")) None None w2) as [[u|e] w3];
        by destruct (cleanup _) as [[u'|e'] w4].
    + by destruct (cleanup _) as [[u'|e'] w4].
  - intros Htrue. exfalso. revert Htrue.
    destruct (is_TimeoutError e).
    + unfold bind, ret.
      destruct (send (Some (tr "Request timed out.")) None None w2)
        as [[u|e''] w3];
        by destruct (cleanup _) as [[u'|e'] w4].
    + by destruct (cleanup _) as [[u'|e'] w4].
Qed.

Lemma foreign_id_not_approve (ctx : Context) (m' : Z) :
  m' ≠ ctx_message_id ctx →
  "yes-" +:+ pretty m' ≠ approve_id ctx ∧ "no-" +:+ pretty m' ≠ approve_id ctx.
Proof.
  intros Hm. unfold approve_id. split.
  - intros Heq. apply Hm. by apply (inj pretty), (inj (String.app "yes-")).
  - intros Heq. discriminate Heq.
Qed.


Lemma first_accepted_app check timeout (before events : list (Z * Interaction)) :
  first_accepted check timeout before = None →
  first_accepted check timeout (before ++ events)
  = first_accepted check timeout events.
Proof.
  induction before as [|[t x] before IH]; [done|]. simpl.
  by destruct (bool_decide (0 ≤ t < timeout) && check x).
Qed.

Lemma approve_deny_differ (ctx : Context) : deny_id ctx ≠ approve_id ctx.
Proof. intros Heq. discriminate Heq. Qed.

Lemma first_answer_None (ctx : Context) timeout
    (events : list (Z * Interaction)) :
  first_accepted (check_same_user ctx) timeout events = None ↔
  Forall (λ ev, ¬ (i_user_id ev.2 = member_id (ctx_author ctx)
                   ∧ 0 ≤ ev.1 < timeout)) events.
Proof.
  induction events as [|[t x] events IH]; simpl.
  - split; [constructor|done].
  - unfold check_same_user at 1.
    destruct (bool_decide (0 ≤ t < timeout)) eqn:Ht;
      destruct (bool_decide (i_user_id x = member_id (ctx_author ctx))) eqn:Hx;
      simpl; rewrite Forall_cons, <- IH; simpl;
      try apply bool_decide_eq_true in Ht; try apply bool_decide_eq_true in Hx;
      try apply bool_decide_eq_false in Ht;
      try apply bool_decide_eq_false in Hx.
    + split; [done|]. intros [Hnot _]. by destruct Hnot.
    + split; [|by intros [_ ?]]. intros Hnone. split; [|done]. by intros [? _].
    + split; [|by intros [_ ?]]. intros Hnone. split; [|done]. by intros [_ ?].
    + split; [|by intros [_ ?]]. intros Hnone. split; [|done]. by intros [? _].
Qed.

Lemma first_answer_Some (ctx : Context) timeout
    (events : list (Z * Interaction)) (x : Interaction) :
  first_accepted (check_same_user ctx) timeout events = Some x ↔
  ∃ before t after,
    events = before ++ (t, x) :: after
    ∧ Forall (λ ev, ¬ (i_user_id ev.2 = member_id (ctx_author ctx)
                       ∧ 0 ≤ ev.1 < timeout)) before
    ∧ i_user_id x = member_id (ctx_author ctx) ∧ 0 ≤ t < timeout.
Proof.
  split.
  - induction events as [|[t y] events IH]; [done|]. simpl.
    destruct (bool_decide (0 ≤ t < timeout) && check_same_user ctx y) eqn:Hacc.
    + intros [= ->]. apply andb_true_iff in Hacc as [Ht Hx].
      apply bool_decide_eq_true in Ht. apply bool_decide_eq_true in Hx.
      exists [], t, events. split; [done|]. split; [constructor|done].
    + intros Hx. destruct (IH Hx) as (before & t' & after & -> & Hbefore & Hmine).
      exists ((t, y) :: before), t', after. split; [done|]. split; [|done].
      constructor; [|done]. simpl. intros [Hy Ht].
      apply andb_false_iff in Hacc as [Hacc|Hacc].
      * by apply bool_decide_eq_false in Hacc.
      * unfold check_same_user in Hacc. by apply bool_decide_eq_false in Hacc.
  - intros (before & t & after & -> & Hbefore & Hx & Ht).
    rewrite first_accepted_app by (by apply first_answer_None).
    simpl. unfold check_same_user at 1.
    by rewrite (bool_decide_eq_true_2 _ Ht), (bool_decide_eq_true_2 _ Hx).
Qed.

(** C6, amended. On a chat service whose calls succeed.  The prompt message
    carries a green button tagged "yes-<id>" and a red button tagged
    "no-<id>", <id> being the identifier of the invoking message.  The prompt
    returns true exactly when the first interaction authored by the invoker
    within the timeout carries the identifier of the approve button; the
    calls made are then the prompt, the wait and the cleanup.  When that
    first interaction carries the identifier of the deny button the prompt
    returns false and the calls made are the prompt, the wait, one
    "Cancelled." notice if and only if [negative_response] is set, and the
    cleanup.  When the invoker authors no interaction within the timeout, the
    prompt returns false and the calls made are the prompt, the wait, one
    "Request timed out." notice and the cleanup. *)
Theorem prompt_yes_or_no_outcomes (ctx : Context) content
    (embed : option Embed) timeout (delete_after negative_response : bool) w :
  reliable w →
  let run := prompt_yes_or_no ctx content embed timeout delete_after
               negative_response w in
  let answers := λ ev : Z * Interaction,
    i_user_id ev.2 = member_id (ctx_author ctx) ∧ 0 ≤ ev.1 < timeout in
  let first_answer := λ x : Interaction,
    ∃ before t after,
      w_interactions w = before ++ (t, x) :: after
      ∧ Forall (λ ev, ¬ answers ev) before ∧ answers (t, x) in
  let yes := approve_button ctx in
  let no := deny_button ctx in
  let opening := [Send content embed (Some [yes; no]); WaitFor timeout] in
  let closing := [cleanup_call content embed delete_after w] in
  (style yes = green ∧ custom_id yes = "yes-" +:+ pretty (ctx_message_id ctx)
   ∧ style no = red ∧ custom_id no = "no-" +:+ pretty (ctx_message_id ctx)) ∧
  (run.1 = Ok true ↔
     ∃ x, first_answer x ∧ i_data x !! "custom_id" = Some (custom_id yes)) ∧
  (∀ x, first_answer x →
        i_data x !! "custom_id" = Some (custom_id yes) →
        w_calls run.2 = w_calls w ++ opening ++ closing) ∧
  (∀ x, first_answer x →
        i_data x !! "custom_id" = Some (custom_id no) →
        run.1 = Ok false ∧
        w_calls run.2 =
          w_calls w ++ opening
            ++ (if negative_response
                then [Send (Some "Cancelled.") None None] else [])
            ++ closing) ∧
  (Forall (λ ev, ¬ answers ev) (w_interactions w) →
     run.1 = Ok false ∧
     w_calls run.2 =
       w_calls w ++ opening ++ [Send (Some "Request timed out.") None None]
         ++ closing).
Proof.
  intros Hrel run answers first_answer yes no opening closing.
  pose proof (prompt_reliable ctx content embed timeout delete_after
                negative_response w Hrel) as Hrun.
  cbv zeta in Hrun. fold run in Hrun.
  assert (∀ x, first_answer x ↔
               first_accepted (check_same_user ctx) timeout (w_interactions w)
               = Some x) as Hfirst.
  { intros x. rewrite first_answer_Some. unfold first_answer, answers. simpl.
    split; intros (before & t & after & ? & ? & ?);
      exists before, t, after; tauto. }
  split; [done|]. split; [|split; [|split]].
  - split.
    + intros Htrue. apply prompt_true_inv in Htrue as (x & Hx & Hid).
      exists x. split; [by apply Hfirst|done].
    + intros (x & Hx & Hid). apply Hfirst in Hx. rewrite Hrun, Hx.
      by rewrite bool_decide_eq_true_2.
  - intros x Hx Hid. apply Hfirst in Hx.
    rewrite Hrun, Hx, bool_decide_eq_true_2 by done.
    simpl. by rewrite <- ?app_assoc.
  - intros x Hx Hid. apply Hfirst in Hx. rewrite Hrun, Hx.
    rewrite bool_decide_eq_false_2
      by (rewrite Hid; intros [= Heq]; by apply (approve_deny_differ ctx)).
    split; [done|]. destruct negative_response; simpl; by rewrite <- ?app_assoc.
  - intros Hnone. apply first_answer_None in Hnone. rewrite Hrun, Hnone.
    split; [done|]. simpl. by rewrite <- ?app_assoc.
Qed.

(** C10. An interaction of the invoker that ends the wait and whose
    [custom_id] is anything but this prompt's approve identifier (the deny
    identifier, the identifier of an unrelated button or of another prompt,
    or none at all) is a denial: on a chat service whose calls succeed the
    prompt returns false, and sends the "Cancelled." notice exactly when
    [negative_response] is set. *)
Theorem prompt_non_approve_is_denial (ctx : Context) content
    (embed : option Embed) timeout (delete_after negative_response : bool) w
    (before after : list (Z * Interaction)) (t : Z) (x : Interaction) :
  reliable w →
  w_interactions w = before ++ (t, x) :: after →
  first_accepted (check_same_user ctx) timeout before = None →
  0 ≤ t < timeout →
  i_user_id x = member_id (ctx_author ctx) →
  i_data x !! "custom_id" ≠ Some (approve_id ctx) →
  let run := prompt_yes_or_no ctx content embed timeout delete_after
               negative_response w in
  run.1 = Ok false ∧
  w_calls run.2 =
    w_calls w ++ [prompt_call ctx content embed; WaitFor timeout]
      ++ (if negative_response then [Send (Some "Cancelled.") None None] else [])
      ++ [cleanup_call content embed delete_after w].
Proof.
  intros Hrel Hevents Hbefore Ht Huser Hid run. subst run.
  assert (first_accepted (check_same_user ctx) timeout (w_interactions w)
          = Some x) as Hx.
  { rewrite Hevents, first_accepted_app by done. simpl.
    unfold check_same_user at 1.
    by rewrite (bool_decide_eq_true_2 _ Ht), (bool_decide_eq_true_2 _ Huser). }
  rewrite (prompt_reliable ctx content embed timeout delete_after
             negative_response w Hrel), Hx, (bool_decide_eq_false_2 _ Hid).
  split; [done|]. destruct negative_response; simpl; by rewrite <- ?app_assoc.
Qed.

(** C7. Once the prompt message is out, every way through the function
    (approval, denial, timeout, an exception of the wait or of a notice)
    attempts the cleanup exactly once, as the last call: the message is
    deleted when [delete_after] is set, otherwise edited with its own text,
    the embed and no view.  No other call of the run deletes or edits. *)
Theorem prompt_cleanup_once (ctx : Context) content (embed : option Embed)
    timeout (delete_after negative_response : bool) w :
  (∀ e, head (w_faults w) ≠ Some (Some e)) →
  let message := {| msg_id := w_next_id w; msg_content := default "" content |} in
  let cleanup := if delete_after then Delete message
                 else Edit message (msg_content message) embed None in
  ∃ during,
    w_calls (prompt_yes_or_no ctx content embed timeout delete_after
               negative_response w).2
    = w_calls w ++ [prompt_call ctx content embed] ++ during ++ [cleanup]
    ∧ Forall (λ c, is_cleanup c = false) during
    ∧ is_cleanup (prompt_call ctx content embed) = false
    ∧ is_cleanup cleanup = true.
Proof.
  intros Hsent message cleanup.
  destruct (prompt_cleanup_footprint ctx content embed timeout delete_after
              negative_response w Hsent) as (during & Hcalls & Hduring).
  exists during. split; [|split; [done|split; [done|]]].
  - rewrite Hcalls. unfold cleanup_call, cleanup, message, prompt_message.
    by destruct delete_after.
  - unfold cleanup. by destruct delete_after.
Qed.

(** C2, amended. Interactions of users other than the invoker never end the
    wait and have no effect on the run: with them removed the prompt returns
    the same and makes the same calls, and when every interaction of the
    invoker falls outside the timeout the wait times out whatever others did
    in between.  The identifier derived from the invoking message keeps the
    response to another prompt from approving this one: an interaction that
    ends the wait with the approve or deny identifier of another message
    never makes the prompt return true (on a chat service whose calls
    succeed it returns false). *)
Theorem prompt_other_users_ignored (ctx : Context) content
    (embed : option Embed) timeout (delete_after negative_response : bool)
    (w w' : World) :
  let author := member_id (ctx_author ctx) in
  let prompt := prompt_yes_or_no ctx content embed timeout delete_after
                  negative_response in
  let resolved :=
    first_accepted (check_same_user ctx) timeout (w_interactions w) in
  (∀ x, resolved = Some x → i_user_id x = author) ∧
  (w_faults w' = w_faults w → w_next_id w' = w_next_id w →
   w_calls w' = w_calls w →
   w_interactions w' = filter (λ ev, i_user_id ev.2 = author) (w_interactions w) →
   (prompt w').1 = (prompt w).1 ∧ w_calls (prompt w').2 = w_calls (prompt w).2) ∧
  ((∀ t x, (t, x) ∈ w_interactions w → i_user_id x = author →
           ¬ (0 ≤ t < timeout)) →
   resolved = None) ∧
  (∀ x m', resolved = Some x → m' ≠ ctx_message_id ctx →
     i_data x !! "custom_id" = Some ("yes-" +:+ pretty m')
     ∨ i_data x !! "custom_id" = Some ("no-" +:+ pretty m') →
     (prompt w).1 ≠ Ok true ∧ (reliable w → (prompt w).1 = Ok false)).
Proof.
  intros author prompt resolved. split; [|split; [|split]].
  - intros x Hx. apply first_accepted_Some in Hx as [Hcheck _].
    by apply bool_decide_eq_true in Hcheck.
  - intros Hf Hn Hc Hev.
    assert (agree (check_same_user ctx) timeout w' w) as Hagree.
    { unfold agree. rewrite Hf, Hn, Hc, Hev.
      split; [done|]. split; [done|]. split; [done|].
      apply first_accepted_filter. }
    destruct (respects_prompt ctx content embed timeout delete_after
                negative_response w' w Hagree) as [Hres (_ & _ & Hcalls & _)].
    done.
  - intros Hlate. apply first_accepted_None. intros t x Hin Hcheck.
    apply (Hlate t x); [done|]. by apply bool_decide_eq_true in Hcheck.
  - intros x m' Hx Hm' Hid.
    destruct (foreign_id_not_approve ctx m' Hm') as [Hyes Hno].
    assert (i_data x !! "custom_id" ≠ Some (approve_id ctx)) as Hne.
    { destruct Hid as [-> | ->]; intros Heq; [apply Hyes|apply Hno];
        congruence. }
    split.
    + intros Htrue. apply prompt_true_inv in Htrue as (y & Hy & Hidy).
      fold resolved in Hy. congruence.
    + intros Hrel. unfold prompt.
      rewrite (prompt_reliable ctx content embed timeout delete_after
                 negative_response w Hrel).
      fold resolved. rewrite Hx. by rewrite bool_decide_eq_false_2.
Qed.

End PromptFacts.

(** *** Concrete runs *)


Lemma prompt_yes_or_no_outcomes_witness :
  (Sample.prompt true true
     (Sample.world [(4, Sample.press 8 "yes-10"); (12, Sample.press 3 "yes-10")]
        [None])).1 = Ok true
  ∧ (Sample.prompt true true
       (Sample.world [(12, Sample.press 3 "no-10")] [])).1 = Ok false
  ∧ (Sample.prompt true true
       (Sample.world [(31, Sample.press 3 "yes-10")] [])).1 = Ok false
  ∧ (Sample.prompt true true
       (Sample.world [(4, Sample.press 8 "yes-10")] [])).1 = Ok false.
Proof.
  split; [|split; [|split]].
  - destruct (prompt_yes_or_no_outcomes Sample.ctx (Some "Are you sure?") None
                30 true true
                (Sample.world
                   [(4, Sample.press 8 "yes-10"); (12, Sample.press 3 "yes-10")]
                   [None]))
      as (_ & Hiff & _); [repeat constructor|].
    apply Hiff. exists (Sample.press 3 "yes-10"). split; [|reflexivity].
    exists [(4, Sample.press 8 "yes-10")], 12, []. split; [reflexivity|]. split.
    + constructor; [|constructor]. intros [Huser _]. discriminate Huser.
    + split; [reflexivity|]. split; [discriminate|reflexivity].
  - destruct (prompt_yes_or_no_outcomes Sample.ctx (Some "Are you sure?") None
                30 true true (Sample.world [(12, Sample.press 3 "no-10")] []))
      as (_ & _ & _ & Hdeny & _); [constructor|].
    apply (Hdeny (Sample.press 3 "no-10")); [|reflexivity].
    exists [], 12, []. split; [reflexivity|]. split; [constructor|].
    split; [reflexivity|]. split; [discriminate|reflexivity].
  - destruct (prompt_yes_or_no_outcomes Sample.ctx (Some "Are you sure?") None
                30 true true (Sample.world [(31, Sample.press 3 "yes-10")] []))
      as (_ & _ & _ & _ & Hsilent); [constructor|].
    apply Hsilent. constructor; [|constructor].
    intros [_ [_ Hlate]]. discriminate Hlate.
  - destruct (prompt_yes_or_no_outcomes Sample.ctx (Some "Are you sure?") None
                30 true true (Sample.world [(4, Sample.press 8 "yes-10")] []))
      as (_ & _ & _ & _ & Hsilent); [constructor|].
    apply Hsilent. constructor; [|constructor].
    intros [Huser _]. discriminate Huser.
Defined.

(** C6, as claimed, fails.  The invoker first uses an unrelated control, then
    presses the approve button of this prompt, both within the timeout of 30:
    the invoking user has approved within the timeout, yet the prompt returns
    false, because the wait ended with the first of the two interactions. *)
Lemma prompt_late_approval_unseen :
  let detour := Sample.press 3 "role-menu" in
  let approval := Sample.press 3 "yes-10" in
  let w := Sample.world [(4, detour); (12, approval)] [] in
  Prompt.i_user_id approval = member_id (ctx_author Sample.ctx)
  ∧ 0 ≤ 12 < 30
  ∧ Prompt.i_data approval !! "custom_id"
    = Some (Prompt.custom_id (Prompt.approve_button Sample.ctx))
  ∧ (Sample.prompt true true w).1 = Ok false
  ∧ Prompt.w_calls (Sample.prompt true true w).2 =
      [Prompt.Send (Some "Are you sure?") None
         (Some [Prompt.approve_button Sample.ctx;
                Prompt.deny_button Sample.ctx]);
       Prompt.WaitFor 30;
       Prompt.Send (Some "Cancelled.") None None;
       Prompt.Delete {| Prompt.msg_id := 100;
                        Prompt.msg_content := "Are you sure?" |}].
Proof.
  split; [reflexivity|]. split; [split; [discriminate|reflexivity]|].
  split; [reflexivity|]. split; reflexivity.
Qed.

Lemma prompt_non_approve_is_denial_witness :
  (Sample.prompt true true
     (Sample.world [(4, Sample.press 8 "yes-10"); (12, Sample.press 3 "role-menu")]
        [])).1 = Ok false.
Proof.
  apply (prompt_non_approve_is_denial Sample.ctx (Some "Are you sure?") None 30
           true true
           (Sample.world
              [(4, Sample.press 8 "yes-10"); (12, Sample.press 3 "role-menu")] [])
           [(4, Sample.press 8 "yes-10")] [] 12 (Sample.press 3 "role-menu")).
  - constructor.
  - reflexivity.
  - reflexivity.
  - split; [discriminate|reflexivity].
  - reflexivity.
  - discriminate.
Defined.

Lemma prompt_cleanup_once_witness :
  ∃ during,
    Prompt.w_calls
      (Sample.prompt false true
         (Sample.world [(12, Sample.press 3 "no-10")]
            [None; None; Some (HTTPException 403)])).2
    = [Prompt.prompt_call Sample.ctx (Some "Are you sure?") None] ++ during
        ++ [Prompt.Edit {| Prompt.msg_id := 100;
                           Prompt.msg_content := "Are you sure?" |}
              "Are you sure?" None None]
    ∧ Forall (λ c, Prompt.is_cleanup c = false) during.
Proof.
  destruct (prompt_cleanup_once Sample.ctx (Some "Are you sure?") None 30
              false true
              (Sample.world [(12, Sample.press 3 "no-10")]
                 [None; None; Some (HTTPException 403)]))
    as (during & Hcalls & Hduring & _).
  - intros e. discriminate.
  - exists during. split; [exact Hcalls|exact Hduring].
Defined.

Lemma prompt_other_users_ignored_witness :
  (Sample.prompt true true
     (Sample.world [(4, Sample.press 8 "yes-10"); (12, Sample.press 3 "yes-11")]
        [])).1 ≠ Ok true
  ∧ (Sample.prompt true true
       (Sample.world [(31, Sample.press 3 "yes-10")] [])).1
    = (Sample.prompt true true
         (Sample.world [(4, Sample.press 8 "yes-10"); (31, Sample.press 3 "yes-10")]
            [])).1.
Proof.
  split.
  - destruct (prompt_other_users_ignored Sample.ctx (Some "Are you sure?") None
                30 true true
                (Sample.world
                   [(4, Sample.press 8 "yes-10"); (12, Sample.press 3 "yes-11")]
                   [])
                (Sample.world [] [])) as (_ & _ & _ & Hforeign).
    apply (Hforeign (Sample.press 3 "yes-11") 11);
      [reflexivity|discriminate|left; reflexivity].
  - destruct (prompt_other_users_ignored Sample.ctx (Some "Are you sure?") None
                30 true true
                (Sample.world
                   [(4, Sample.press 8 "yes-10"); (31, Sample.press 3 "yes-10")]
                   [])
                (Sample.world [(31, Sample.press 3 "yes-10")] []))
      as (_ & Hsame & _).
    apply Hsame; reflexivity.
Defined.

(** C2, as claimed, fails.  The invoker has a second prompt open, for
    message 11, and presses its approve button.  The identifier "yes-11" is
    not this prompt's, yet the interaction ends this prompt's wait: the
    prompt for message 10 returns false, says "Cancelled." and deletes its
    message. *)
Lemma prompt_cross_talk :
  let other := Sample.press 3 ("yes-" +:+ pretty 11) in
  let w := Sample.world [(12, other)] [] in
  11 ≠ ctx_message_id Sample.ctx
  ∧ Prompt.first_accepted (Prompt.check_same_user Sample.ctx) 30
      (Prompt.w_interactions w) = Some other
  ∧ (Sample.prompt true true w).1 = Ok false
  ∧ Prompt.w_calls (Sample.prompt true true w).2 =
      [Prompt.prompt_call Sample.ctx (Some "Are you sure?") None;
       Prompt.WaitFor 30;
       Prompt.Send (Some "Cancelled.") None None;
       Prompt.Delete {| Prompt.msg_id := 100;
                        Prompt.msg_content := "Are you sure?" |}].
Proof.
  split; [discriminate|]. split; [reflexivity|]. split; reflexivity.
Qed.

(** * Further properties *)

(** ** Substring tests *)

Lemma prefix_inv needle : ∀ haystack,
  String.prefix needle haystack = true → ∃ post, haystack = needle +:+ post.
Proof.
  induction needle as [|c needle IH]; intros haystack Hpre.
  - by exists haystack.
  - destruct haystack as [|c' haystack]; [done|]. simpl in Hpre.
    destruct (Ascii.ascii_dec c c') as [<-|]; [|done].
    destruct (IH haystack Hpre) as [post ->]. by exists post.
Qed.

Lemma str_contains_inv needle haystack :
  str_contains needle haystack = true →
  ∃ pre post, haystack = pre +:+ needle +:+ post.
Proof.
  induction haystack as [|c haystack IH]; intros Hin.
  - assert (String.prefix needle "" = true) as Hpre.
    { revert Hin. unfold str_contains. by rewrite orb_false_r. }
    apply prefix_inv in Hpre as [post Hpost]. by exists "", post.
  - assert (String.prefix needle (String c haystack) = true
            ∨ str_contains needle haystack = true) as [Hpre|Hin'].
    { apply orb_true_iff. exact Hin. }
    + apply prefix_inv in Hpre as [post Hpost]. by exists "", post.
    + destruct (IH Hin') as (pre & post & ->). by exists (String c pre), post.
Qed.

Lemma str_contains_iff needle haystack :
  str_contains needle haystack = true ↔
  ∃ pre post, haystack = pre +:+ needle +:+ post.
Proof.
  split; [apply str_contains_inv|].
  intros (pre & post & ->). apply str_contains_app.
Qed.

(** ** [async_http_retry], beyond the two handled classes *)

Section RetryMore.
Context {A : Type}.
Implicit Types (coro later : list (Result A)).

(** X1. An exception that is neither a Challonge error nor a timeout goes
    through the wrapper untouched: one await, no sleep, the same
    exception. *)
Theorem async_http_retry_other_errors (e : exn) later :
  (∀ msg, e ≠ ChallongeException msg) →
  (∀ cause, e ≠ TimeoutError cause) →
  Retry.async_http_retry (Raise e :: later) =
    (Raise e, {| Retry.pending := later; Retry.log := [Retry.Awaited] |}).
Proof.
  intros Hchallonge Htimeout. destruct e; try done.
  - by destruct (Hchallonge message).
  - by destruct (Htimeout cause).
Qed.

(** X2. The wrapper never retries: whatever the pending operation is, it is
    awaited exactly once, and the only other thing the wrapper does is at most
    one sleep of one second. *)
Theorem async_http_retry_awaits_once coro :
  let run := Retry.async_http_retry coro in
  Retry.pending run.2 = tail coro ∧
  (Retry.log run.2 = [Retry.Awaited]
   ∨ Retry.log run.2 = [Retry.Awaited; Retry.Slept 1]).
Proof.
  destruct coro as [|[v|e] later]; [by split; [|left]..|].
  destruct e; try (by split; [|left]).
  unfold Retry.async_http_retry. simpl. unfold bind, catch, Retry.await. simpl.
  destruct (str_contains "504" message); split; auto.
Qed.

(** X3. The wrapper returns a value exactly when the first await of the
    operation returns it. *)
Theorem async_http_retry_returns_iff coro (v : A) :
  (Retry.async_http_retry coro).1 = Ok v ↔ head coro = Some (Ok v).
Proof.
  destruct coro as [|[v'|e] later]; simpl.
  - split; intros [=].
  - split; intros [= ->]; done.
  - split; [|intros [=]].
    destruct e; try (by intros [=]).
    unfold Retry.async_http_retry. simpl. unfold bind, catch, Retry.await. simpl.
    destruct (str_contains "504" message); intros [=].
Qed.

(** X4. A timeout that leaves the wrapper is always the wrapper's own and
    always chained: its cause is the error of the first await, which was a
    Challonge error with "504" in its message or a timeout.  A timeout raised
    by the operation never comes out as it was. *)
Theorem async_http_retry_timeout_chained coro (cause : option exn) :
  (Retry.async_http_retry coro).1 = Raise (TimeoutError cause) →
  ∃ e, cause = Some e ∧ head coro = Some (Raise e) ∧ Retry.retryable e = true.
Proof.
  destruct coro as [|[v|e] later]; [intros [=]..|].
  destruct e; try (by intros [=]).
  - unfold Retry.async_http_retry. simpl. unfold bind, catch, Retry.await. simpl.
    destruct (str_contains "504" message) eqn:H504; intros [= <-].
    by exists (ChallongeException message).
  - intros [= <-]. by exists (TimeoutError cause0).
Qed.

(** X5. The gateway-timeout test is a substring test on the message: a
    Challonge error comes back unchanged exactly when "504" occurs nowhere in
    its message; with "504" anywhere in it, whatever surrounds it, the error
    is turned into the chained timeout. *)
Theorem async_http_retry_504_anywhere (msg : string) later :
  let run := Retry.async_http_retry (Raise (ChallongeException msg) :: later) in
  (run.1 = Raise (ChallongeException msg) ↔
     ¬ ∃ pre post, msg = pre +:+ "504" +:+ post) ∧
  (run.1 = Raise (TimeoutError (Some (ChallongeException msg))) ↔
     ∃ pre post, msg = pre +:+ "504" +:+ post).
Proof.
  intros run. subst run. rewrite <- str_contains_iff.
  unfold Retry.async_http_retry. simpl. unfold bind, catch, Retry.await. simpl.
  destruct (str_contains "504" msg); simpl; split; split; done.
Qed.

End RetryMore.

Lemma async_http_retry_other_errors_witness :
  Retry.async_http_retry [Raise (HTTPException 500); Ok 7%nat] =
    (Raise (HTTPException 500),
     {| Retry.pending := [Ok 7%nat]; Retry.log := [Retry.Awaited] |}).
Proof.
  apply async_http_retry_other_errors; intros ?; discriminate.
Defined.

Lemma async_http_retry_timeout_chained_witness :
  ∃ e, Some (ChallongeException "504") = Some e
       ∧ head [Raise (A:=nat) (ChallongeException "504")] = Some (Raise e)
       ∧ Retry.retryable e = true.
Proof.
  apply (async_http_retry_timeout_chained
           [Raise (A:=nat) (ChallongeException "504")]).
  reflexivity.
Defined.

(** ** [only_phase], the registry and the allowed phases *)

Section PhaseGateMore.
Context {Phase : Type} `{!EqDecision Phase}.
Implicit Types (allowed : list Phase) (tournaments : gmap Z (Tournament Phase)).

Lemma hook_same_entry allowed tournaments tournaments' (ctx : Context) :
  (∀ g, ctx_guild ctx = Some g →
        tournaments !! guild_id g = tournaments' !! guild_id g) →
  only_phase.hook allowed tournaments ctx
  = only_phase.hook allowed tournaments' ctx.
Proof.
  intros Hsame. unfold only_phase.hook, ctx_guild_id, getitem.
  destruct (ctx_guild ctx) as [g|]; [|done]. by rewrite (Hsame g eq_refl).
Qed.

(** X6. The allowed phases act as a set: two calls of [only_phase] whose
    arguments list the same phases, in any order and with any repetition,
    give hooks that behave alike. *)
Theorem only_phase_allowed_as_set allowed allowed' tournaments (ctx : Context) :
  (∀ p, p ∈ allowed ↔ p ∈ allowed') →
  only_phase.hook allowed tournaments ctx
  = only_phase.hook allowed' tournaments ctx.
Proof.
  intros Hset. unfold only_phase.hook.
  destruct (ctx_guild_id ctx) as [gid|e]; [|done].
  destruct (getitem tournaments gid) as [t|e]; [|done].
  destruct allowed as [|p allowed].
  - destruct allowed' as [|p' allowed']; [done|].
    exfalso. apply (not_elem_of_nil p'), Hset. left.
  - destruct allowed' as [|p' allowed'].
    + exfalso. apply (not_elem_of_nil p), Hset. left.
    + by rewrite (bool_decide_ext _ _ (Hset (phase t))).
Qed.

(** X7. The hook looks at the entry of its own guild only.  Registering or
    removing the tournament of another guild changes nothing; once the
    guild's own tournament is removed the hook aborts with "no ongoing
    tournament", whatever phases are allowed; and a tournament registered for
    the guild is the only one the hook takes into account. *)
Theorem only_phase_registry allowed tournaments (ctx : Context) (g : Guild)
    (other : Z) (t : Tournament Phase) :
  ctx_guild ctx = Some g →
  (other ≠ guild_id g →
     only_phase.hook allowed (<[other := t]> tournaments) ctx
     = only_phase.hook allowed tournaments ctx
     ∧ only_phase.hook allowed (delete other tournaments) ctx
       = only_phase.hook allowed tournaments ctx) ∧
  only_phase.hook allowed (delete (guild_id g) tournaments) ctx
  = Raise (UserFeedbackCheckFailure "There's no ongoing tournament.") ∧
  only_phase.hook allowed (<[guild_id g := t]> tournaments) ctx
  = only_phase.hook allowed {[ guild_id g := t ]} ctx.
Proof.
  intros Hg. split; [|split].
  - intros Hother. split; apply hook_same_entry; intros g' Hg';
      assert (g' = g) as -> by congruence.
    + by apply lookup_insert_ne.
    + by apply lookup_delete_ne.
  - unfold only_phase.hook, ctx_guild_id, getitem.
    by rewrite Hg, lookup_delete_eq.
  - apply hook_same_entry. intros g' Hg'. assert (g' = g) as -> by congruence.
    by rewrite lookup_insert_eq, lookup_singleton_eq.
Qed.

End PhaseGateMore.

Lemma only_phase_allowed_as_set_witness :
  let ongoing : Tournament string := {| phase := "ongoing"; to_role := None |} in
  only_phase.hook ["register"; "ongoing"] {[ 1 := ongoing ]} Sample.ctx
  = only_phase.hook ["ongoing"; "register"; "ongoing"] {[ 1 := ongoing ]}
      Sample.ctx.
Proof.
  intros ongoing.
  apply (only_phase_allowed_as_set ["register"; "ongoing"]
           ["ongoing"; "register"; "ongoing"]).
  intros p. rewrite !elem_of_cons, elem_of_nil. tauto.
Defined.

Lemma only_phase_registry_witness :
  let ongoing : Tournament string := {| phase := "ongoing"; to_role := None |} in
  only_phase.hook ["ongoing"] (delete 1 {[ 1 := ongoing ]}) Sample.ctx
  = Raise (UserFeedbackCheckFailure "There's no ongoing tournament.").
Proof.
  intros ongoing.
  destruct (only_phase_registry ["ongoing"] {[ 1 := ongoing ]} Sample.ctx
              {| guild_id := 1; owner_id := 2 |} 5 ongoing eq_refl)
    as (_ & Hgone & _).
  exact Hgone.
Defined.

(** ** [mod_or_to], the registry and the author's rights *)

Section PermissionMore.
Context {Phase : Type}.
Implicit Types (tournaments : gmap Z (Tournament Phase)).

(** X8. Rights only add up.  If the check lets an author through, it also
    lets through an author of the same identity who holds at least the same
    roles, is an administrator if the first one was, and whom the bot ranks
    at least as high. *)
Theorem mod_or_to_monotone (bot : mod_or_to.Bot) tournaments
    (ctx ctx' : Context) (asked asked' : list mod_or_to.Query) :
  let a := ctx_author ctx in
  let a' := ctx_author ctx' in
  ctx_guild ctx' = ctx_guild ctx →
  member_id a' = member_id a →
  (administrator a = true → administrator a' = true) →
  (∀ r, r ∈ roles a → r ∈ roles a') →
  (mod_or_to.bot_is_mod bot a = true → mod_or_to.bot_is_mod bot a' = true) →
  (mod_or_to.bot_is_owner bot a = true → mod_or_to.bot_is_owner bot a' = true) →
  (mod_or_to.check bot tournaments ctx asked).1 = Ok true →
  (mod_or_to.check bot tournaments ctx' asked').1 = Ok true.
Proof.
  intros a a' Hguild Hid Hadmin Hroles Hmod Howner.
  destruct (ctx_guild ctx) as [g|] eqn:Hg.
  2: { unfold mod_or_to.check at 1. by rewrite Hg. }
  rewrite (check_in_guild bot tournaments ctx g asked Hg).
  rewrite (check_in_guild bot tournaments ctx' g asked' Hguild).
  fold a a'. simpl. intros [= Hb]. f_equal.
  rewrite !orb_true_iff, bool_decide_eq_true in Hb.
  rewrite !orb_true_iff, bool_decide_eq_true.
  destruct Hb as [[[[H|H]|H]|H]|H].
  - left. left. left. left. congruence.
  - left. left. left. right. auto.
  - left. left. right. auto.
  - left. right. auto.
  - right. destruct (tournaments !! guild_id g) as [t|]; [|discriminate H].
    apply holds_to_role_spec in H as (r & Hr & Hin).
    apply holds_to_role_spec. exists r. auto.
Qed.

(** X9. The check looks at the tournament of its own guild only: registering
    or removing the tournament of another guild changes neither the answer nor
    the questions put to the bot. *)
Theorem mod_or_to_registry (bot : mod_or_to.Bot) tournaments (ctx : Context)
    (g : Guild) (other : Z) (t : Tournament Phase)
    (asked : list mod_or_to.Query) :
  ctx_guild ctx = Some g →
  other ≠ guild_id g →
  mod_or_to.check bot (<[other := t]> tournaments) ctx asked
  = mod_or_to.check bot tournaments ctx asked
  ∧ mod_or_to.check bot (delete other tournaments) ctx asked
    = mod_or_to.check bot tournaments ctx asked.
Proof.
  intros Hg Hother.
  rewrite !(check_in_guild bot _ ctx g asked Hg).
  by rewrite lookup_insert_ne, lookup_delete_ne.
Qed.

End PermissionMore.

Lemma mod_or_to_monotone_witness :
  let bot := {| mod_or_to.bot_is_mod := λ _, false;
                mod_or_to.bot_is_owner := λ _, false |} in
  let ongoing : Tournament string := {| phase := "ongoing"; to_role := Some 41 |} in
  let promoted := {| member_id := 3; administrator := true; roles := [7; 41] |} in
  let ctx := {| ctx_guild := Some {| guild_id := 1; owner_id := 2 |};
                ctx_author := {| member_id := 3; administrator := false;
                                 roles := [41] |};
                ctx_message_id := 10; ctx_clean_prefix := "!" |} in
  let ctx' := {| ctx_guild := Some {| guild_id := 1; owner_id := 2 |};
                 ctx_author := promoted;
                 ctx_message_id := 11; ctx_clean_prefix := "!" |} in
  (mod_or_to.check bot {[ 1 := ongoing ]} ctx' []).1 = Ok true.
Proof.
  intros bot ongoing promoted ctx ctx'.
  apply (mod_or_to_monotone bot {[ 1 := ongoing ]} ctx ctx' [] []);
    try reflexivity; try discriminate.
  intros r. simpl. rewrite !elem_of_cons, elem_of_nil. tauto.
Defined.

Lemma mod_or_to_registry_witness :
  let bot := {| mod_or_to.bot_is_mod := λ _, false;
                mod_or_to.bot_is_owner := λ _, false |} in
  let ongoing : Tournament string := {| phase := "ongoing"; to_role := Some 41 |} in
  mod_or_to.check bot (<[ 5 := ongoing ]> {[ 1 := ongoing ]}) Sample.ctx []
  = mod_or_to.check bot {[ 1 := ongoing ]} Sample.ctx [].
Proof.
  intros bot ongoing.
  destruct (mod_or_to_registry bot {[ 1 := ongoing ]} Sample.ctx
              {| guild_id := 1; owner_id := 2 |} 5 ongoing [] eq_refl)
    as [Hinsert _]; [discriminate|].
  exact Hinsert.
Defined.

(** ** [credentials_check] and the stored mapping *)

Lemma any_unset_insert_None (credentials : gmap string (option string)) k :
  credentials_check.any_unset (<[k := None]> credentials) = true.
Proof. apply any_unset_spec. exists k. apply lookup_insert_eq. Qed.

Lemma any_unset_insert_Some (credentials : gmap string (option string)) k v :
  credentials_check.any_unset (<[k := Some v]> credentials)
  = credentials_check.any_unset (delete k credentials).
Proof.
  apply eq_true_iff_eq. rewrite !any_unset_spec. split.
  - intros (k' & Hk'). exists k'. apply lookup_insert_Some in Hk' as [[_ [=]]|[? ?]].
    by rewrite lookup_delete_ne.
  - intros (k' & Hk'). exists k'. apply lookup_delete_Some in Hk' as [? ?].
    by rewrite lookup_insert_ne.
Qed.

(** X10. Storing [None] under any key closes the gate whatever else the
    mapping holds; storing a value under a key leaves the decision to the
    other keys, so that a gate which was open stays open. *)
Theorem credentials_check_store (data : credentials_check.Store)
    (ctx : Context) (g : Guild) (credentials : gmap string (option string))
    (k v : string) :
  ctx_guild ctx = Some g →
  (data g = <[k := None]> credentials →
     ∃ msg, credentials_check.hook data ctx
            = Raise (UserFeedbackCheckFailure msg)) ∧
  (data g = <[k := Some v]> credentials →
     credentials_check.hook data ctx
     = credentials_check.hook (λ _, delete k credentials) ctx) ∧
  (data g = <[k := Some v]> credentials →
     credentials_check.hook (λ _, credentials) ctx = Ok tt →
     credentials_check.hook data ctx = Ok tt).
Proof.
  intros Hg. unfold credentials_check.hook. rewrite Hg.
  split; [|split].
  - intros ->. rewrite any_unset_insert_None. eauto.
  - intros ->. by rewrite any_unset_insert_Some.
  - intros ->. rewrite any_unset_insert_Some.
    destruct (credentials_check.any_unset credentials) eqn:Hany; [done|].
    intros _.
    destruct (credentials_check.any_unset (delete k credentials)) eqn:Hdel;
      [|done].
    apply any_unset_spec in Hdel as (k' & Hk').
    apply lookup_delete_Some in Hk' as [_ Hk'].
    assert (credentials_check.any_unset credentials = true) as Hcontra
      by (apply any_unset_spec; eauto).
    congruence.
Qed.

Lemma credentials_check_store_witness :
  credentials_check.hook
    (λ _, <["api" := Some "key"]> {[ "username" := Some "laggron" ]})
    Sample.ctx = Ok tt.
Proof.
  destruct (credentials_check_store
              (λ _, <["api" := Some "key"]> {[ "username" := Some "laggron" ]})
              Sample.ctx {| guild_id := 1; owner_id := 2 |}
              {[ "username" := Some "laggron" ]} "api" "key" eq_refl)
    as (_ & _ & Hopen).
  apply Hopen; reflexivity.
Defined.

(** ** [prompt_yes_or_no] when the chat service fails *)

Section PromptMore.
Context {Embed : Type}.
Implicit Types (w : @Prompt.World Embed) (made : list (@Prompt.Call Embed)).
Import Prompt.

(** X11. When the prompt message cannot be sent, the exception of the send
    leaves the function at once: no wait, no notice and no cleanup follow,
    the failed send is the only call made. *)
Theorem prompt_not_sent (ctx : Context) content (embed : option Embed) timeout
    (delete_after negative_response : bool) w (e : exn) rest :
  w_faults w = Some e :: rest →
  prompt_yes_or_no ctx content embed timeout delete_after negative_response w
  = (Raise e, record_call (prompt_call ctx content embed) w).
Proof.
  intros Hfaults. unfold prompt_yes_or_no, send, bind, perform.
  by rewrite Hfaults.
Qed.

Lemma prompt_failures (ctx : Context) content (embed : option Embed) timeout
    (delete_after negative_response : bool) w made :
  let run := prompt_yes_or_no ctx content embed timeout delete_after
               negative_response w in
  w_calls run.2 = w_calls w ++ made →
  (∀ e, w_faults w !! (length made - 1)%nat = Some (Some e) → run.1 = Raise e) ∧
  (∀ b, run.1 = Ok b →
        ∀ k e, (k < length made)%nat → w_faults w !! k = Some (Some e) →
               k = 1%nat ∧ is_TimeoutError e = true).
Proof.
  destruct w as [events faults next calls]. cbv zeta.
  unfold prompt_yes_or_no, bind, try_finally, try_except_else, send, wait_for,
    message_delete, message_edit, perform, bind, ret. simpl.
  destruct faults as [|[e1|] [|[e2|] [|[e3|] [|[e4|] rest]]]]; simpl;
    destruct (first_accepted (check_same_user ctx) timeout events) as [x|];
    simpl;
    try (destruct (is_TimeoutError e2) eqn:Htimeout; simpl);
    try case_bool_decide; destruct negative_response, delete_after; simpl;
    rewrite <- ?app_assoc; intros Hmade; apply app_inv_head in Hmade;
    subst made; simpl;
    (split;
     [ intros e Hlast; by simplify_eq
     | intros b Hb k e' Hk Hfault; try discriminate Hb;
       repeat (destruct k as [|k]; simpl in *; simplify_eq; try lia);
       try done ]).
Qed.


(** X12. The exception of the last call wins.  When the last call the run
    makes fails, the function raises that call's exception whatever came
    before: an approval already read is lost when deleting or editing the
    prompt message fails. *)
Theorem prompt_last_failure_wins (ctx : Context) content (embed : option Embed)
    timeout (delete_after negative_response : bool) w made (e : exn) :
  let run := prompt_yes_or_no ctx content embed timeout delete_after
               negative_response w in
  w_calls run.2 = w_calls w ++ made →
  w_faults w !! (length made - 1)%nat = Some (Some e) →
  run.1 = Raise e.
Proof.
  intros run Hmade Hlast.
  exact (proj1 (prompt_failures ctx content embed timeout delete_after
                  negative_response w made Hmade) e Hlast).
Qed.

(** X13. A failure of the chat service is never answered with a boolean.
    When the function returns, every call it made succeeded, with one
    exception: a timeout raised by the wait itself, which is the handled
    case. *)
Theorem prompt_returns_only_without_failure (ctx : Context) content
    (embed : option Embed) timeout (delete_after negative_response : bool)
    w made (b : bool) (k : nat) (e : exn) :
  let run := prompt_yes_or_no ctx content embed timeout delete_after
               negative_response w in
  w_calls run.2 = w_calls w ++ made →
  run.1 = Ok b →
  (k < length made)%nat →
  w_faults w !! k = Some (Some e) →
  k = 1%nat ∧ is_TimeoutError e = true.
Proof.
  intros run Hmade Hb Hk Hfault.
  exact (proj2 (prompt_failures ctx content embed timeout delete_after
                  negative_response w made Hmade) b Hb k e Hk Hfault).
Qed.

Lemma first_accepted_decided check timeout
    (before after after' : list (Z * Interaction)) t x :
  0 ≤ t < timeout → check x = true →
  first_accepted check timeout (before ++ (t, x) :: after)
  = first_accepted check timeout (before ++ (t, x) :: after').
Proof.
  intros Ht Hx. induction before as [|[t0 x0] before IH]; simpl.
  - by rewrite (bool_decide_eq_true_2 _ Ht), Hx.
  - by rewrite IH.
Qed.

(** X14. The prompt is answered once.  After an interaction of the invoker
    within the timeout, nothing that is dispatched later has any effect on the
    run: a denial followed by an approval stays a denial. *)
Theorem prompt_answered_once (ctx : Context) content (embed : option Embed)
    timeout (delete_after negative_response : bool) (w w' : World)
    (before after after' : list (Z * Interaction)) (t : Z) (x : Interaction) :
  let prompt := prompt_yes_or_no ctx content embed timeout delete_after
                  negative_response in
  w_faults w' = w_faults w → w_next_id w' = w_next_id w →
  w_calls w' = w_calls w →
  w_interactions w = before ++ (t, x) :: after →
  w_interactions w' = before ++ (t, x) :: after' →
  0 ≤ t < timeout →
  i_user_id x = member_id (ctx_author ctx) →
  (prompt w').1 = (prompt w).1 ∧ w_calls (prompt w').2 = w_calls (prompt w).2.
Proof.
  intros prompt Hf Hn Hc Hw Hw' Ht Hx.
  assert (agree (check_same_user ctx) timeout w' w) as Hagree.
  { unfold agree. rewrite Hf, Hn, Hc, Hw, Hw'.
    split; [done|]. split; [done|]. split; [done|].
    apply first_accepted_decided; [done|]. by apply bool_decide_eq_true. }
  destruct (respects_prompt ctx content embed timeout delete_after
              negative_response w' w Hagree) as [Hres (_ & _ & Hcalls & _)].
  done.
Qed.

(** X15. The buttons of the prompt message tell prompts and answers apart.
    The first call of every run sends the approve and the deny button, tagged
    "yes-<id>" and "no-<id>" with the identifier of the invoking message.  The
    approve buttons of two invocations carry the same [custom_id] only when
    the invoking message is the same, likewise the deny buttons, and no
    approve button carries the [custom_id] of a deny button. *)
Theorem prompt_button_ids (ctx ctx' : Context) content (embed : option Embed)
    timeout (delete_after negative_response : bool) w :
  let yes := approve_button ctx in
  let no := deny_button ctx in
  (∃ later,
     w_calls (prompt_yes_or_no ctx content embed timeout delete_after
                negative_response w).2
     = w_calls w ++ Send content embed (Some [yes; no]) :: later) ∧
  custom_id yes = "yes-" +:+ pretty (ctx_message_id ctx) ∧
  custom_id no = "no-" +:+ pretty (ctx_message_id ctx) ∧
  (custom_id yes = custom_id (approve_button ctx') ↔
     ctx_message_id ctx = ctx_message_id ctx') ∧
  (custom_id no = custom_id (deny_button ctx') ↔
     ctx_message_id ctx = ctx_message_id ctx') ∧
  custom_id yes ≠ custom_id (deny_button ctx') ∧
  custom_id no ≠ custom_id (approve_button ctx').
Proof.
  intros yes no. split; [|split; [done|split; [done|]]].
  - destruct (w_faults w) as [|[e|] rest] eqn:Hfaults.
    + destruct (prompt_cleanup_footprint ctx content embed timeout
                  delete_after negative_response w) as (during & -> & _).
      { intros e. by rewrite Hfaults. }
      by eexists.
    + exists []. unfold prompt_yes_or_no, send, bind, perform.
      by rewrite Hfaults.
    + destruct (prompt_cleanup_footprint ctx content embed timeout
                  delete_after negative_response w) as (during & -> & _).
      { intros e. by rewrite Hfaults. }
      by eexists.
  - simpl. unfold approve_id, deny_id. split; [|split; [|split]].
    + split; [|by intros ->].
      intros Heq. by apply (inj pretty), (inj (String.app "yes-")).
    + split; [|by intros ->].
      intros Heq. by apply (inj pretty), (inj (String.app "no-")).
    + intros Heq. discriminate Heq.
    + intros Heq. discriminate Heq.
Qed.

Lemma adds_only_try_finally {A} (P : @Call Embed → Prop) (body : M World A)
    (cleanup : M World unit) :
  adds_only P body → adds_only P cleanup →
  adds_only P (try_finally body cleanup).
Proof.
  intros Hbody Hcleanup w. unfold try_finally.
  destruct (Hbody w) as (made & Hmade & HP).
  destruct (body w) as [r w1]. simpl in Hmade.
  destruct (Hcleanup w1) as (made' & Hmade' & HP').
  destruct (cleanup w1) as [[u|e] w2]; simpl in Hmade';
    exists (made ++ made'); (split; [|by apply Forall_app]);
    simpl; by rewrite Hmade', Hmade, app_assoc.
Qed.

(** X16. With [negative_response] unset the "Cancelled." notice is never
    sent, whatever the interactions and whatever fails. *)
Theorem prompt_no_notice_when_unset (ctx : Context) content
    (embed : option Embed) timeout (delete_after : bool) w :
  ∃ made,
    w_calls (prompt_yes_or_no ctx content embed timeout delete_after false w).2
    = w_calls w ++ made
    ∧ Forall (λ c, c ≠ Send (Some "Cancelled.") None None) made.
Proof.
  set (P := λ c : @Call Embed, c ≠ Send (Some "Cancelled.") None None).
  assert (adds_only P
            (prompt_yes_or_no ctx content embed timeout delete_after false))
    as Hrun; [|exact (Hrun w)].
  unfold prompt_yes_or_no.
  apply adds_only_bind; [by apply adds_only_send|]. intros message.
  apply adds_only_try_finally.
  - apply adds_only_try_except_else.
    + by apply adds_only_wait_for.
    + intros e. apply adds_only_bind; [by apply adds_only_send|].
      intros _. apply adds_only_ret.
    + intros x. case_bool_decide; [apply adds_only_ret|].
      apply adds_only_bind; [apply adds_only_ret|].
      intros _. apply adds_only_ret.
  - destruct delete_after; by apply adds_only_perform.
Qed.

End PromptMore.

Lemma prompt_not_sent_witness :
  Sample.prompt true true
    (Sample.world [(12, Sample.press 3 "yes-10")] [Some (HTTPException 403)])
  = (Raise (HTTPException 403),
     Prompt.record_call
       (Prompt.prompt_call Sample.ctx (Some "Are you sure?") None)
       (Sample.world [(12, Sample.press 3 "yes-10")]
          [Some (HTTPException 403)])).
Proof.
  by apply (prompt_not_sent Sample.ctx (Some "Are you sure?") None 30 true true
              _ (HTTPException 403) []).
Defined.

Lemma prompt_last_failure_wins_witness :
  (Sample.prompt true true
     (Sample.world [(12, Sample.press 3 "yes-10")]
        [None; None; Some (HTTPException 404)])).1
  = Raise (HTTPException 404).
Proof.
  apply (prompt_last_failure_wins Sample.ctx (Some "Are you sure?") None 30
           true true
           (Sample.world [(12, Sample.press 3 "yes-10")]
              [None; None; Some (HTTPException 404)])
           [Prompt.prompt_call Sample.ctx (Some "Are you sure?") None;
            Prompt.WaitFor 30;
            Prompt.Delete {| Prompt.msg_id := 100;
                             Prompt.msg_content := "Are you sure?" |}]);
    reflexivity.
Defined.

Lemma prompt_returns_only_without_failure_witness :
  (1 = 1)%nat ∧ is_TimeoutError (TimeoutError None) = true.
Proof.
  apply (prompt_returns_only_without_failure Sample.ctx (Some "Are you sure?")
           None 30 true true
           (Sample.world [(12, Sample.press 3 "yes-10")]
              [None; Some (TimeoutError None)])
           [Prompt.prompt_call Sample.ctx (Some "Are you sure?") None;
            Prompt.WaitFor 30;
            Prompt.Send (Some "Request timed out.") None None;
            Prompt.Delete {| Prompt.msg_id := 100;
                             Prompt.msg_content := "Are you sure?" |}]
           false 1 (TimeoutError None));
    [reflexivity|reflexivity|simpl; lia|reflexivity].
Defined.

Lemma prompt_answered_once_witness :
  (Sample.prompt true true
     (Sample.world [(5, Sample.press 3 "no-10"); (9, Sample.press 3 "yes-10")]
        [])).1
  = (Sample.prompt true true (Sample.world [(5, Sample.press 3 "no-10")] [])).1.
Proof.
  apply (prompt_answered_once Sample.ctx (Some "Are you sure?") None 30 true
           true (Sample.world [(5, Sample.press 3 "no-10")] [])
           (Sample.world
              [(5, Sample.press 3 "no-10"); (9, Sample.press 3 "yes-10")] [])
           [] [] [(9, Sample.press 3 "yes-10")] 5 (Sample.press 3 "no-10"));
    try reflexivity.
  split; [discriminate|reflexivity].
Defined.
